(** * libtriton/arch/architecture.cpp: the architecture selector and its
      disassembly driver

    A shallow embedding of [triton::arch::Architecture].  The object owns at
    most one CPU model behind a [std::unique_ptr<CpuInterface>], remembers the
    tag of the architecture that was selected, and forwards every
    architecture-dependent call to the model.  Two loops built on top of the
    forwarding calls disassemble a linear run of instructions out of concrete
    memory. *)

From Stdlib Require Import ZArith Lia.
From stdpp Require Import base list strings gmap.

Local Open Scope Z_scope.

(** ** Machine integers *)

(** [triton::uint64]: the address type.  [addr += n] wraps around. *)
Definition uint64 (z : Z) : Z := z mod 2 ^ 64.

(** [triton::uint32]: the type of [Instruction::getSize]. *)
Definition uint32 (z : Z) : Z := z mod 2 ^ 32.

(** ** Exceptions *)

(** [triton::exceptions::Architecture] is the only exception this file throws
    itself; it carries its message.  Whatever a CPU model throws travels
    through the selector unchanged.  [std::length_error] and [std::bad_alloc]
    are what [std::vector::reserve] throws. *)
Inductive exception : Type :=
| ExcArchitecture (what : string)
| ExcCpu (what : string)
| ExcLengthError
| ExcBadAlloc.

(** The outcome of a call: it returns a value or leaves by an exception. *)
Inductive outcome (A : Type) : Type :=
| Returns (v : A)
| Throws (e : exception).
Arguments Returns {A} v.
Arguments Throws {A} e.

(** A method that may mutate the object it is called on.  The state that comes
    back with a [Throws] is the object as the exception left it. *)
Definition method (S A : Type) : Type := S -> outcome A * S.

Definition ret {S A : Type} (v : A) : method S A := fun s => (Returns v, s).

Definition throw {S A : Type} (e : exception) : method S A :=
  fun s => (Throws e, s).

Definition bind {S A B : Type} (m : method S A) (k : A -> method S B)
  : method S B :=
  fun s =>
    match m s with
    | (Returns v, s') => k v s'
    | (Throws e, s') => (Throws e, s')
    end.

Definition get {S : Type} : method S S := fun s => (Returns s, s).

Notation "x <- m ;; k" := (bind m (fun x => k))
  (at level 100, m at next level, right associativity).
Notation "m ;; k" := (bind m (fun _ => k))
  (at level 100, right associativity).

(** ** Data declared in headers *)

(** Modelled from the spec: [triton::arch::architecture_e] is declared in a
    header that is not part of the sources at hand.  The spec describes an
    enumerated tag naming the ISA (x86, x86-64, ARM32, AArch64) or the
    "undefined" sentinel, and speaks of unrecognized tags; the five
    enumerators are the ones the switch of [setArchitecture] and [isValid]
    name, and [ARCH_UNRECOGNIZED] stands for any other integral value
    converted to the enumeration. *)
Inductive architecture_e : Type :=
| ARCH_INVALID
| ARCH_AARCH64
| ARCH_ARM32
| ARCH_X86
| ARCH_X86_64
| ARCH_UNRECOGNIZED (raw : Z).

#[global] Instance architecture_e_eq_dec : EqDecision architecture_e.
Proof. solve_decision. Defined.

(** [triton::arch::register_e]: a register identifier, opaque here. *)
Definition register_e : Type := Z.

(** [triton::callbacks::Callbacks*]: the selector only stores the pointer and
    hands it to the model it constructs. *)
Definition Callbacks_ptr : Type := Z.

(** Modelled from the spec: [triton::arch::Instruction] is declared elsewhere.
    The spec lists what a decoded unit carries: address, raw bytes, size, and a
    control-flow classification flag. *)
Record Instruction : Type := mkInstruction {
  getAddress : Z;
  getOpcode : list Z;
  getSize : Z;
  isControlFlow : bool;
}.

(** [Instruction(addr, opcode, opSize)]: an instruction over a byte buffer,
    not yet decoded. *)
Definition Instruction_of (addr : Z) (opcode : list Z) : Instruction :=
  {| getAddress := addr;
     getOpcode := opcode;
     getSize := uint32 (Z.of_nat (length opcode));
     isControlFlow := false |}.

(** Modelled from the spec: the capability set of a CPU model
    ([triton::arch::CpuInterface], with its four implementations
    [x86::x8664Cpu], [x86::x86Cpu], [arm::aarch64::AArch64Cpu] and
    [arm::arm32::Arm32Cpu], all outside the sources at hand).  [Cpu] is the
    state of a model, whichever variant it is.  The decode entry point follows
    the spec's words: it consumes the raw bytes at an address and yields the
    size and the control-flow classification, or fails. *)
Class CpuInterface (Cpu : Type) : Type := {
  cpu_x8664Cpu : Callbacks_ptr -> Cpu;
  cpu_x86Cpu : Callbacks_ptr -> Cpu;
  cpu_AArch64Cpu : Callbacks_ptr -> Cpu;
  cpu_Arm32Cpu : Callbacks_ptr -> Cpu;
  cpu_clear : Cpu -> Cpu;
  cpu_isFlag : Cpu -> register_e -> bool;
  cpu_isRegister : Cpu -> register_e -> bool;
  cpu_isRegisterValid : Cpu -> register_e -> bool;
  cpu_isThumb : Cpu -> bool;
  cpu_setThumb : Cpu -> bool -> Cpu;
  cpu_isMemoryExclusiveAccess : Cpu -> bool;
  cpu_setMemoryExclusiveAccess : Cpu -> bool -> Cpu;
  cpu_numberOfRegisters : Cpu -> Z;
  cpu_gprSize : Cpu -> Z;
  cpu_gprBitSize : Cpu -> Z;
  cpu_isConcreteMemoryValueDefined : Cpu -> Z -> Z -> bool;
  cpu_getConcreteMemoryAreaValue : Cpu -> Z -> Z -> bool -> list Z;
  cpu_setConcreteMemoryAreaValue : Cpu -> Z -> list Z -> Cpu;
  cpu_disassembly : Cpu -> Z -> list Z -> outcome (Z * bool);
}.

(** The default arguments that architecture.hpp gives to the two memory
    accessors the driver calls with an address only.  The header is not at
    hand, so both are kept abstract. *)
Class HeaderDefaults : Type := {
  default_size : Z;
  default_execCallbacks : bool;
}.

(** [std::vector<triton::arch::Instruction>::max_size()].  Its value is the
    library's; no library lets it reach half the range of a 64-bit size, an
    [Instruction] being wider than one byte. *)
Class VectorLimits : Type := {
  max_size : Z;
  max_size_range : 0 <= max_size < 2 ^ 63;
}.

(** [ret.reserve(count)] on a vector just constructed.  Above [max_size] it
    throws [std::length_error]; for a count of zero there is nothing to do;
    otherwise it asks for the storage of [count] elements, and throws
    [std::bad_alloc] when the environment has none.  [count] is a
    [triton::usize]; a number beyond the 64-bit range, which no caller can
    pass, is above [max_size] like the upper half of that range. *)
Definition reserve `{!VectorLimits} (storage_available : bool) (count : nat)
  : outcome unit :=
  if decide (max_size < Z.of_nat count) then Throws ExcLengthError
  else match count with
       | O => Returns tt
       | S _ => if storage_available then Returns tt else Throws ExcBadAlloc
       end.

(** [new(std::nothrow) T(args)]: the environment decides whether storage is
    available; without it the expression is a null pointer. *)
Definition new_nothrow {A : Type} (storage_available : bool) (v : A)
  : option A :=
  if storage_available then Some v else None.

(** What the driver asks of the model, in order. *)
Inductive cpu_call : Type :=
| call_isConcreteMemoryValueDefined (baseAddr size : Z)
| call_getConcreteMemoryAreaValue (baseAddr size : Z) (execCallbacks : bool)
| call_disassembly (addr : Z).

(** ** The selector *)

(** The data members of [triton::arch::Architecture]; [cpu] is the
    [std::unique_ptr], [None] when it is null. *)
Record Architecture (Cpu : Type) : Type := mkArchitecture {
  arch : architecture_e;
  cpu : option Cpu;
  callbacks : Callbacks_ptr;
}.
Arguments mkArchitecture {Cpu} arch cpu callbacks.
Arguments arch {Cpu} this : rename.
Arguments cpu {Cpu} this : rename.
Arguments callbacks {Cpu} this : rename.

Section Selector.
Context {Cpu : Type} `{!CpuInterface Cpu} `{!HeaderDefaults}.
Context `{!VectorLimits}.

Definition set_cpu (p : option Cpu) : method (Architecture Cpu) unit :=
  fun this => (Returns tt,
               {| arch := arch this; cpu := p; callbacks := callbacks this |}).

Definition set_arch (a : architecture_e) : method (Architecture Cpu) unit :=
  fun this => (Returns tt,
               {| arch := a; cpu := cpu this; callbacks := callbacks this |}).

(** [Architecture::Architecture(callbacks)]. *)
Definition Architecture_new (cb : Callbacks_ptr) : Architecture Cpu :=
  {| arch := ARCH_INVALID; cpu := None; callbacks := cb |}.

Definition getArchitecture (this : Architecture Cpu) : architecture_e :=
  arch this.

(** [this->cpu.reset(p); if (this->cpu == nullptr) throw ...]. *)
Definition reset_or_throw (p : option Cpu) : method (Architecture Cpu) unit :=
  set_cpu p ;;
  this <- get ;;
  match cpu this with
  | None =>
      throw (ExcArchitecture
               "Architecture::setArchitecture(): Not enough memory.")
  | Some _ => ret tt
  end.

(** [Architecture::setArchitecture].  [storage_available] is the answer of
    the allocator to the one [new(std::nothrow)] the call performs. *)
Definition setArchitecture (storage_available : bool) (a : architecture_e)
  : method (Architecture Cpu) unit :=
  this <- get ;;
  match a with
  | ARCH_X86_64 =>
      reset_or_throw
        (new_nothrow storage_available (cpu_x8664Cpu (callbacks this)))
  | ARCH_X86 =>
      reset_or_throw
        (new_nothrow storage_available (cpu_x86Cpu (callbacks this)))
  | ARCH_AARCH64 =>
      reset_or_throw
        (new_nothrow storage_available (cpu_AArch64Cpu (callbacks this)))
  | ARCH_ARM32 =>
      reset_or_throw
        (new_nothrow storage_available (cpu_Arm32Cpu (callbacks this)))
  | _ =>
      throw (ExcArchitecture
               "Architecture::setArchitecture(): Architecture not supported.")
  end ;;
  set_arch a.

Definition clearArchitecture : method (Architecture Cpu) unit :=
  this <- get ;;
  match cpu this with
  | None =>
      throw (ExcArchitecture
        "Architecture::clearArchitecture(): You must define an architecture.")
  | Some c => set_cpu (Some (cpu_clear c))
  end.

Definition isValid (this : Architecture Cpu) : bool :=
  if decide (arch this = ARCH_INVALID) then false else true.

Definition isFlag (this : Architecture Cpu) (regId : register_e) : bool :=
  match cpu this with
  | None => false
  | Some c => cpu_isFlag c regId
  end.

Definition isRegister (this : Architecture Cpu) (regId : register_e) : bool :=
  match cpu this with
  | None => false
  | Some c => cpu_isRegister c regId
  end.

Definition isRegisterValid (this : Architecture Cpu) (regId : register_e)
  : bool :=
  match cpu this with
  | None => false
  | Some c => cpu_isRegisterValid c regId
  end.

Definition isThumb (this : Architecture Cpu) : bool :=
  match cpu this with
  | None => false
  | Some c => cpu_isThumb c
  end.

Definition setThumb (state : bool) : method (Architecture Cpu) unit :=
  this <- get ;;
  match cpu this with
  | Some c => set_cpu (Some (cpu_setThumb c state))
  | None => ret tt
  end.

Definition isMemoryExclusiveAccess (this : Architecture Cpu) : bool :=
  match cpu this with
  | None => false
  | Some c => cpu_isMemoryExclusiveAccess c
  end.

Definition setMemoryExclusiveAccess (state : bool)
  : method (Architecture Cpu) unit :=
  this <- get ;;
  match cpu this with
  | Some c => set_cpu (Some (cpu_setMemoryExclusiveAccess c state))
  | None => ret tt
  end.

Definition numberOfRegisters (this : Architecture Cpu) : Z :=
  match cpu this with
  | None => 0
  | Some c => cpu_numberOfRegisters c
  end.

Definition gprSize (this : Architecture Cpu) : Z :=
  match cpu this with
  | None => 0
  | Some c => cpu_gprSize c
  end.

Definition gprBitSize (this : Architecture Cpu) : Z :=
  match cpu this with
  | None => 0
  | Some c => cpu_gprBitSize c
  end.

(** ** The concrete memory surface the driver uses *)

Definition disassembly (this : Architecture Cpu) (inst : Instruction)
  : outcome Instruction :=
  match cpu this with
  | None =>
      Throws (ExcArchitecture
        "Architecture::disassembly(): You must define an architecture.")
  | Some c =>
      match cpu_disassembly c (getAddress inst) (getOpcode inst) with
      | Throws e => Throws e
      | Returns (size, controlFlow) =>
          Returns {| getAddress := getAddress inst;
                     getOpcode := getOpcode inst;
                     getSize := uint32 size;
                     isControlFlow := controlFlow |}
      end
  end.

Definition getConcreteMemoryAreaValue (this : Architecture Cpu)
    (baseAddr size : Z) (execCallbacks : bool) : outcome (list Z) :=
  match cpu this with
  | None =>
      Throws (ExcArchitecture
        "Architecture::getConcreteMemoryAreaValue(): You must define an architecture.")
  | Some c =>
      Returns (cpu_getConcreteMemoryAreaValue c baseAddr size execCallbacks)
  end.

Definition setConcreteMemoryAreaValue (baseAddr : Z) (values : list Z)
  : method (Architecture Cpu) unit :=
  this <- get ;;
  match cpu this with
  | None =>
      throw (ExcArchitecture
        "Architecture::setConcreteMemoryAreaValue(): You must define an architecture.")
  | Some c => set_cpu (Some (cpu_setConcreteMemoryAreaValue c baseAddr values))
  end.

Definition isConcreteMemoryValueDefined (this : Architecture Cpu)
    (baseAddr size : Z) : outcome bool :=
  match cpu this with
  | None =>
      Throws (ExcArchitecture
        "Architecture::isConcreteMemoryValueDefined(): You must define an architecture.")
  | Some c => Returns (cpu_isConcreteMemoryValueDefined c baseAddr size)
  end.

(** ** The disassembly driver *)

(** The body both loops share, up to [this->disassembly(inst)]: the driver's
    calls in order and what came of them.  [Returns None] is the [break]. *)
Definition fetch_decode (this : Architecture Cpu) (addr : Z)
  : list cpu_call * outcome (option Instruction) :=
  let asked := [call_isConcreteMemoryValueDefined addr default_size] in
  match isConcreteMemoryValueDefined this addr default_size with
  | Throws e => (asked, Throws e)
  | Returns false => (asked, Returns None)
  | Returns true =>
      let asked :=
        asked ++ [call_getConcreteMemoryAreaValue addr 16
                    default_execCallbacks] in
      match getConcreteMemoryAreaValue this addr 16 default_execCallbacks with
      | Throws e => (asked, Throws e)
      | Returns opcodes =>
          let asked := asked ++ [call_disassembly addr] in
          match disassembly this (Instruction_of addr opcodes) with
          | Throws e => (asked, Throws e)
          | Returns inst => (asked, Returns (Some inst))
          end
      end
  end.

(** [while (count--) { ... }] of [disassembly(addr, count)]; [ret] is the
    vector built so far, [log] the calls made so far. *)
Fixpoint disassembly_count_loop (this : Architecture Cpu)
    (ret : list Instruction) (log : list cpu_call) (addr : Z) (count : nat)
  : list cpu_call * outcome (list Instruction) :=
  match count with
  | O => (log, Returns ret)
  | S count =>
      match fetch_decode this addr with
      | (asked, Throws e) => (log ++ asked, Throws e)
      | (asked, Returns None) => (log ++ asked, Returns ret)
      | (asked, Returns (Some inst)) =>
          disassembly_count_loop this (ret ++ [inst]) (log ++ asked)
            (uint64 (addr + getSize inst)) count
      end
  end.

(** The loop of [disassembly(addr, count)] as the method enters it: nothing
    collected, nothing asked yet. *)
Definition disassembly_count_body (this : Architecture Cpu) (addr : Z)
    (count : nat) : list cpu_call * outcome (list Instruction) :=
  disassembly_count_loop this [] [] addr count.

(** [Architecture::disassembly(addr, count)]: [ret.reserve(count)], then the
    loop.  [storage_available] is the answer of the allocator to the one
    request [reserve] may make; a [reserve] that throws ends the call before
    anything is asked of the selector. *)
Definition disassembly_count (storage_available : bool)
    (this : Architecture Cpu) (addr : Z) (count : nat)
  : list cpu_call * outcome (list Instruction) :=
  match reserve storage_available count with
  | Throws e => ([], Throws e)
  | Returns _ => disassembly_count_body this addr count
  end.

(** [ret.back().isControlFlow()]; the vector is never empty where the loop
    asks. *)
Definition back_isControlFlow (ret : list Instruction) : bool :=
  match last ret with
  | Some inst => isControlFlow inst
  | None => false
  end.

(** [do { ... } while (!ret.back().isControlFlow())] of
    [disassembly(addr)].  Each turn of the loop takes one unit of [fuel];
    [None] means the fuel ran out before the loop was left. *)
Fixpoint disassembly_addr_loop (this : Architecture Cpu)
    (ret : list Instruction) (log : list cpu_call) (addr : Z) (fuel : nat)
  : list cpu_call * option (outcome (list Instruction)) :=
  match fuel with
  | O => (log, None)
  | S fuel =>
      match fetch_decode this addr with
      | (asked, Throws e) => (log ++ asked, Some (Throws e))
      | (asked, Returns None) => (log ++ asked, Some (Returns ret))
      | (asked, Returns (Some inst)) =>
          let ret := ret ++ [inst] in
          let addr := uint64 (addr + getSize inst) in
          if back_isControlFlow ret
          then (log ++ asked, Some (Returns ret))
          else disassembly_addr_loop this ret (log ++ asked) addr fuel
      end
  end.

(** [Architecture::disassembly(addr)]. *)
Definition disassembly_addr (this : Architecture Cpu) (addr : Z) (fuel : nat)
  : list cpu_call * option (outcome (list Instruction)) :=
  disassembly_addr_loop this [] [] addr fuel.

End Selector.

(** The tags the switch of [setArchitecture] has a case for. *)
Definition supported (a : architecture_e) : bool :=
  match a with
  | ARCH_X86_64 | ARCH_X86 | ARCH_AARCH64 | ARCH_ARM32 => true
  | _ => false
  end.

(** ** Two small CPU models to run the selector on *)

(** The defaults of the header as the library ships them: one byte, callbacks
    on. *)
#[global] Instance shipped_defaults : HeaderDefaults :=
  {| default_size := 1; default_execCallbacks := true |}.

(** A vector limit of the shape the common libraries use, the largest signed
    size over the width of an element, here for elements of 512 bytes. *)
#[global] Instance sample_limits : VectorLimits.
Proof. refine {| max_size := (2 ^ 63 - 1) / 512 |}. by vm_compute. Defined.

(** A byte-coded miniature of a CPU model: a finite concrete memory, the two
    mode flags, and a decoder that knows four one-byte opcodes. *)
Module Toy.

Record state : Type := mkState {
  variant : architecture_e;
  memory : gmap Z Z;
  thumb : bool;
  exclusive : bool;
}.

Definition power_on (v : architecture_e) (cb : Callbacks_ptr) : state :=
  {| variant := v; memory := ∅; thumb := false; exclusive := false |}.

Definition clear (s : state) : state :=
  {| variant := variant s; memory := ∅;
     thumb := thumb s; exclusive := exclusive s |}.

Definition defined (s : state) (baseAddr size : Z) : bool :=
  forallb (fun i => bool_decide (is_Some (memory s !! uint64 (baseAddr + i))))
          (seqZ 0 size).

Definition area (s : state) (baseAddr size : Z) (execCallbacks : bool)
  : list Z :=
  (fun i => default 0 (memory s !! uint64 (baseAddr + i))) <$> seqZ 0 size.

Fixpoint store_bytes (m : gmap Z Z) (addr : Z) (values : list Z) : gmap Z Z :=
  match values with
  | [] => m
  | v :: values => store_bytes (<[uint64 addr := v]> m) (addr + 1) values
  end.

Definition store (s : state) (baseAddr : Z) (values : list Z) : state :=
  {| variant := variant s; memory := store_bytes (memory s) baseAddr values;
     thumb := thumb s; exclusive := exclusive s |}.

(** nop, ret, jmp rel8, mov eax imm32; anything else fails to decode. *)
Definition decode (s : state) (addr : Z) (opcode : list Z)
  : outcome (Z * bool) :=
  match opcode with
  | b :: _ =>
      if b =? 144 then Returns (1, false)
      else if b =? 195 then Returns (1, true)
      else if b =? 235 then Returns (2, true)
      else if b =? 184 then Returns (5, false)
      else Throws (ExcCpu "Failed to disassemble the given code.")
  | [] => Throws (ExcCpu "Failed to disassemble the given code.")
  end.

#[global] Instance cpu_interface : CpuInterface state := {|
  cpu_x8664Cpu := power_on ARCH_X86_64;
  cpu_x86Cpu := power_on ARCH_X86;
  cpu_AArch64Cpu := power_on ARCH_AARCH64;
  cpu_Arm32Cpu := power_on ARCH_ARM32;
  cpu_clear := clear;
  cpu_isFlag := fun _ r => bool_decide (0 <= r < 8);
  cpu_isRegister := fun _ r => bool_decide (8 <= r < 24);
  cpu_isRegisterValid := fun _ r => bool_decide (0 <= r < 24);
  cpu_isThumb := thumb;
  cpu_setThumb := fun s b =>
    {| variant := variant s; memory := memory s;
       thumb := b; exclusive := exclusive s |};
  cpu_isMemoryExclusiveAccess := exclusive;
  cpu_setMemoryExclusiveAccess := fun s b =>
    {| variant := variant s; memory := memory s;
       thumb := thumb s; exclusive := b |};
  cpu_numberOfRegisters := fun _ => 24;
  cpu_gprSize := fun _ => 8;
  cpu_gprBitSize := fun _ => 64;
  cpu_isConcreteMemoryValueDefined := defined;
  cpu_getConcreteMemoryAreaValue := area;
  cpu_setConcreteMemoryAreaValue := store;
  cpu_disassembly := decode;
|}.

(** The x86-64 model with [values] written at [baseAddr], and a selector
    brought to it through its own methods. *)
Definition loaded_cpu (baseAddr : Z) (values : list Z) : state :=
  store (power_on ARCH_X86_64 0) baseAddr values.

Definition loaded (baseAddr : Z) (values : list Z) : Architecture state :=
  (setConcreteMemoryAreaValue baseAddr values
     (setArchitecture true ARCH_X86_64 (Architecture_new 0)).2).2.

(** nop; mov eax, 0x04030201; ret; nop -- eight bytes at 0x1000. *)
Definition sample_bytes : list Z := [144; 184; 1; 2; 3; 4; 195; 144].

(** What decoding at [addr] in [c] is expected to give. *)
Definition decoded (c : state) (addr size : Z) (controlFlow : bool)
  : Instruction :=
  {| getAddress := addr; getOpcode := area c addr 16 true;
     getSize := size; isControlFlow := controlFlow |}.

End Toy.

(** A model whose whole address space holds the one-byte, non-branching
    opcode: every address is defined and no instruction ever ends a run.  It
    stands for a model whose memory is filled on demand from a backing image,
    so that wherever the driver looks the byte is already there. *)
Module Saturated.

#[global] Instance cpu_interface : CpuInterface unit := {|
  cpu_x8664Cpu := fun _ => tt;
  cpu_x86Cpu := fun _ => tt;
  cpu_AArch64Cpu := fun _ => tt;
  cpu_Arm32Cpu := fun _ => tt;
  cpu_clear := fun s => s;
  cpu_isFlag := fun _ _ => false;
  cpu_isRegister := fun _ _ => false;
  cpu_isRegisterValid := fun _ _ => false;
  cpu_isThumb := fun _ => false;
  cpu_setThumb := fun s _ => s;
  cpu_isMemoryExclusiveAccess := fun _ => false;
  cpu_setMemoryExclusiveAccess := fun s _ => s;
  cpu_numberOfRegisters := fun _ => 0;
  cpu_gprSize := fun _ => 0;
  cpu_gprBitSize := fun _ => 0;
  cpu_isConcreteMemoryValueDefined := fun _ _ _ => true;
  cpu_getConcreteMemoryAreaValue := fun _ _ size _ =>
    replicate (Z.to_nat size) 144;
  cpu_setConcreteMemoryAreaValue := fun s _ _ => s;
  cpu_disassembly := fun _ _ _ => Returns (1, false);
|}.

Definition selector : Architecture unit :=
  (setArchitecture true ARCH_X86_64 (Architecture_new 0)).2.

End Saturated.

(** ** The driver as the specification words it

    These definitions follow the text of the specification, not the loops;
    the theorems below compare the two. *)

Section DriverSpecification.
Context {Cpu : Type} `{!CpuInterface Cpu} `{!HeaderDefaults}.

(** "The memory at the current address is defined". *)
Definition spec_defined (c : Cpu) (addr : Z) : bool :=
  cpu_isConcreteMemoryValueDefined c addr default_size.

(** "Read a 16-byte window at the current address as raw bytes". *)
Definition spec_window (c : Cpu) (addr : Z) : list Z :=
  cpu_getConcreteMemoryAreaValue c addr 16 default_execCallbacks.

(** The per-step algorithm: at a defined address, construct an instruction
    over (address, window) and let the model's decode operation determine its
    true size and classification. *)
Definition spec_decoded_at (c : Cpu) (addr : Z) (inst : Instruction) : Prop :=
  spec_defined c addr = true
  /\ exists size controlFlow,
       cpu_disassembly c addr (spec_window c addr)
       = Returns (size, controlFlow)
       /\ inst = {| getAddress := addr;
                    getOpcode := spec_window c addr;
                    getSize := uint32 size;
                    isControlFlow := controlFlow |}.

(** The bounded form: decode up to [count] instructions, stop early the
    moment the memory at the current address is not defined, advance by the
    decoded size. *)
Inductive spec_bounded_run (c : Cpu) : nat -> Z -> list Instruction -> Prop :=
| bounded_exhausted addr :
    spec_bounded_run c O addr []
| bounded_undefined count addr :
    spec_defined c addr = false ->
    spec_bounded_run c (S count) addr []
| bounded_step count addr inst rest :
    spec_decoded_at c addr inst ->
    spec_bounded_run c count (uint64 (addr + getSize inst)) rest ->
    spec_bounded_run c (S count) addr (inst :: rest).

(** The unbounded form: the same step, until memory becomes undefined (keep
    what was collected) or the instruction just decoded is control-flow (stop
    inclusive of it). *)
Inductive spec_unbounded_run (c : Cpu) : Z -> list Instruction -> Prop :=
| unbounded_undefined addr :
    spec_defined c addr = false ->
    spec_unbounded_run c addr []
| unbounded_control_flow addr inst :
    spec_decoded_at c addr inst ->
    isControlFlow inst = true ->
    spec_unbounded_run c addr [inst]
| unbounded_step addr inst rest :
    spec_decoded_at c addr inst ->
    isControlFlow inst = false ->
    spec_unbounded_run c (uint64 (addr + getSize inst)) rest ->
    spec_unbounded_run c addr (inst :: rest).

(** The address the walk stands at after the instructions of [l]. *)
Definition end_address (addr : Z) (l : list Instruction) : Z :=
  fold_left (fun a inst => uint64 (a + getSize inst)) l addr.

(** The three calls one decoded instruction costs. *)
Definition step_calls (addr : Z) : list cpu_call :=
  [call_isConcreteMemoryValueDefined addr default_size;
   call_getConcreteMemoryAreaValue addr 16 default_execCallbacks;
   call_disassembly addr].

Definition calls_of (l : list Instruction) : list cpu_call :=
  flat_map (fun inst => step_calls (getAddress inst)) l.

(** What a caller of a vector-returning method sees when everything before
    it was already pushed. *)
Definition prepend (ret : list Instruction) (r : outcome (list Instruction))
  : outcome (list Instruction) :=
  match r with
  | Returns l => Returns (ret ++ l)
  | Throws e => Throws e
  end.

(** The same for the unbounded loop, which may still be running. *)
Definition prepend_opt (ret : list Instruction)
    (r : option (outcome (list Instruction)))
  : option (outcome (list Instruction)) :=
  prepend ret <$> r.

(** How a finished run of the unbounded form came to its end: the last
    instruction collected is control-flow, or the address the walk stands at
    is undefined; an exception is one the model's decoder raised on defined
    memory. *)
Definition run_ended (c : Cpu) (addr : Z) (r : outcome (list Instruction))
  : Prop :=
  match r with
  | Returns l =>
      (exists inst, last l = Some inst /\ isControlFlow inst = true)
      \/ spec_defined c (end_address addr l) = false
  | Throws e =>
      exists a, spec_defined c a = true
                /\ cpu_disassembly c a (spec_window c a) = Throws e
  end.

End DriverSpecification.

(** * The rest of the selector's surface *)

(** ** Data declared in headers, continued *)

(** [triton::arch::endianness_e]: its enumerators are declared in a header
    that is not at hand; the selector only passes the value on. *)
Definition endianness_e : Type := Z.

(** Modelled from the spec: [triton::arch::Register], a descriptor the
    active model owns: id, name, size and parent.  The selector reads nothing
    of it but [getId]. *)
Record Register : Type := mkRegister {
  getId : register_e;
  getName : string;
  getBitSize : Z;
  getParent : register_e;
}.

(** Modelled from the spec: [triton::arch::MemoryAccess], a request
    descriptor: address and size. *)
Record MemoryAccess : Type := mkMemoryAccess {
  accessAddress : Z;
  accessSize : Z;
}.

(** The part of [triton::arch::CpuInterface] the selector forwards to and the
    driver does not use, taken as a parameter like [CpuInterface].  A const
    method of the model yields an outcome; a mutating one is a [method] on
    the state of the model, which may throw. *)
Class CpuSurface (Cpu : Type) : Type := {
  cpu_getEndianness : Cpu -> outcome endianness_e;
  cpu_getAllRegisters : Cpu -> outcome (list (register_e * Register));
  cpu_getParentRegisters : Cpu -> outcome (list Register);
  cpu_getProgramCounter : Cpu -> outcome Register;
  cpu_getStackPointer : Cpu -> outcome Register;
  cpu_getRegister : Cpu -> register_e -> outcome Register;
  cpu_getRegister_name : Cpu -> string -> outcome Register;
  cpu_getParentRegister : Cpu -> Register -> outcome Register;
  cpu_getParentRegister_id : Cpu -> register_e -> outcome Register;
  cpu_getConcreteMemoryValue : Cpu -> Z -> bool -> outcome Z;
  cpu_getConcreteMemoryValue_mem : Cpu -> MemoryAccess -> bool -> outcome Z;
  cpu_getConcreteRegisterValue : Cpu -> Register -> bool -> outcome Z;
  cpu_setConcreteMemoryValue : Z -> Z -> method Cpu unit;
  cpu_setConcreteMemoryValue_mem : MemoryAccess -> Z -> method Cpu unit;
  cpu_setConcreteMemoryAreaValue_ptr : Z -> list Z -> Z -> method Cpu unit;
  cpu_setConcreteRegisterValue : Register -> Z -> method Cpu unit;
  cpu_isConcreteMemoryValueDefined_mem : Cpu -> MemoryAccess -> outcome bool;
  cpu_clearConcreteMemoryValue_mem : MemoryAccess -> method Cpu unit;
  cpu_clearConcreteMemoryValue : Z -> Z -> method Cpu unit;
}.

Section Surface.
Context {Cpu : Type} `{!CpuInterface Cpu} `{!CpuSurface Cpu}.
Context `{!HeaderDefaults} `{!VectorLimits}.

(** [this->cpu->m(args)] for a mutating [m]: the model is changed in place,
    the pointer and the tag are not touched, and an exception of the model
    passes through. *)
Definition call_cpu {A : Type} (m : method Cpu A) (this : Architecture Cpu)
    (c : Cpu) : outcome A * Architecture Cpu :=
  let '(r, c') := m c in
  (r, {| arch := arch this; cpu := Some c'; callbacks := callbacks this |}).

Definition getEndianness (this : Architecture Cpu) : outcome endianness_e :=
  match cpu this with
  | None =>
      Throws (ExcArchitecture
        "Architecture::getEndianness(): You must define an architecture.")
  | Some c => cpu_getEndianness c
  end.

(** [getCpuInstance] hands out [this->cpu.get()]; the model stands for the
    pointer to it. *)
Definition getCpuInstance (this : Architecture Cpu) : outcome Cpu :=
  match cpu this with
  | None =>
      Throws (ExcArchitecture "Architecture::getCpuInstance(): CPU undefined.")
  | Some c => Returns c
  end.

(** The overloads that take a [Register]. *)
Definition isFlag_reg (this : Architecture Cpu) (reg : Register) : bool :=
  isFlag this (getId reg).

Definition isRegister_reg (this : Architecture Cpu) (reg : Register) : bool :=
  isRegister this (getId reg).

Definition isRegisterValid_reg (this : Architecture Cpu) (reg : Register)
  : bool :=
  isRegisterValid this (getId reg).

Definition getAllRegisters (this : Architecture Cpu)
  : outcome (list (register_e * Register)) :=
  match cpu this with
  | None =>
      Throws (ExcArchitecture
        "Architecture::getAllRegisters(): You must define an architecture.")
  | Some c => cpu_getAllRegisters c
  end.

Definition getParentRegisters (this : Architecture Cpu)
  : outcome (list Register) :=
  match cpu this with
  | None =>
      Throws (ExcArchitecture
        "Architecture::getParentRegisters(): You must define an architecture.")
  | Some c => cpu_getParentRegisters c
  end.

Definition getProgramCounter (this : Architecture Cpu) : outcome Register :=
  match cpu this with
  | None =>
      Throws (ExcArchitecture
        "Architecture::getProgramCounter(): You must define an architecture.")
  | Some c => cpu_getProgramCounter c
  end.

Definition getStackPointer (this : Architecture Cpu) : outcome Register :=
  match cpu this with
  | None =>
      Throws (ExcArchitecture
        "Architecture::getStackPointer(): You must define an architecture.")
  | Some c => cpu_getStackPointer c
  end.

Definition getRegister (this : Architecture Cpu) (id : register_e)
  : outcome Register :=
  match cpu this with
  | None =>
      Throws (ExcArchitecture
        "Architecture::getRegister(): You must define an architecture.")
  | Some c => cpu_getRegister c id
  end.

Definition getRegister_name (this : Architecture Cpu) (name : string)
  : outcome Register :=
  match cpu this with
  | None =>
      Throws (ExcArchitecture
        "Architecture::getRegister(): You must define an architecture.")
  | Some c => cpu_getRegister_name c name
  end.

Definition getParentRegister (this : Architecture Cpu) (reg : Register)
  : outcome Register :=
  match cpu this with
  | None =>
      Throws (ExcArchitecture
        "Architecture::getParentRegister(): You must define an architecture.")
  | Some c => cpu_getParentRegister c reg
  end.

Definition getParentRegister_id (this : Architecture Cpu) (id : register_e)
  : outcome Register :=
  match cpu this with
  | None =>
      Throws (ExcArchitecture
        "Architecture::getParentRegister(): You must define an architecture.")
  | Some c => cpu_getParentRegister_id c id
  end.

Definition getConcreteMemoryValue (this : Architecture Cpu) (addr : Z)
    (execCallbacks : bool) : outcome Z :=
  match cpu this with
  | None =>
      Throws (ExcArchitecture
        "Architecture::getConcreteMemoryValue(): You must define an architecture.")
  | Some c => cpu_getConcreteMemoryValue c addr execCallbacks
  end.

Definition getConcreteMemoryValue_mem (this : Architecture Cpu)
    (mem : MemoryAccess) (execCallbacks : bool) : outcome Z :=
  match cpu this with
  | None =>
      Throws (ExcArchitecture
        "Architecture::getConcreteMemoryValue(): You must define an architecture.")
  | Some c => cpu_getConcreteMemoryValue_mem c mem execCallbacks
  end.

Definition getConcreteRegisterValue (this : Architecture Cpu)
    (reg : Register) (execCallbacks : bool) : outcome Z :=
  match cpu this with
  | None =>
      Throws (ExcArchitecture
        "Architecture::getConcreteRegisterValue(): You must define an architecture.")
  | Some c => cpu_getConcreteRegisterValue c reg execCallbacks
  end.

Definition setConcreteMemoryValue (addr value : Z)
  : method (Architecture Cpu) unit :=
  fun this =>
    match cpu this with
    | None =>
        (Throws (ExcArchitecture
           "Architecture::setConcreteMemoryValue(): You must define an architecture."),
         this)
    | Some c => call_cpu (cpu_setConcreteMemoryValue addr value) this c
    end.

Definition setConcreteMemoryValue_mem (mem : MemoryAccess) (value : Z)
  : method (Architecture Cpu) unit :=
  fun this =>
    match cpu this with
    | None =>
        (Throws (ExcArchitecture
           "Architecture::setConcreteMemoryValue(): You must define an architecture."),
         this)
    | Some c => call_cpu (cpu_setConcreteMemoryValue_mem mem value) this c
    end.

(** The overload over a raw buffer: [area] is what the pointer points to. *)
Definition setConcreteMemoryAreaValue_ptr (baseAddr : Z) (area : list Z)
    (size : Z) : method (Architecture Cpu) unit :=
  fun this =>
    match cpu this with
    | None =>
        (Throws (ExcArchitecture
           "Architecture::setConcreteMemoryAreaValue(): You must define an architecture."),
         this)
    | Some c =>
        call_cpu (cpu_setConcreteMemoryAreaValue_ptr baseAddr area size) this c
    end.

Definition setConcreteRegisterValue (reg : Register) (value : Z)
  : method (Architecture Cpu) unit :=
  fun this =>
    match cpu this with
    | None =>
        (Throws (ExcArchitecture
           "Architecture::setConcreteRegisterValue(): You must define an architecture."),
         this)
    | Some c => call_cpu (cpu_setConcreteRegisterValue reg value) this c
    end.

Definition isConcreteMemoryValueDefined_mem (this : Architecture Cpu)
    (mem : MemoryAccess) : outcome bool :=
  match cpu this with
  | None =>
      Throws (ExcArchitecture
        "Architecture::isConcreteMemoryValueDefined(): You must define an architecture.")
  | Some c => cpu_isConcreteMemoryValueDefined_mem c mem
  end.

Definition clearConcreteMemoryValue_mem (mem : MemoryAccess)
  : method (Architecture Cpu) unit :=
  fun this =>
    match cpu this with
    | None =>
        (Throws (ExcArchitecture
           "Architecture::clearConcreteMemoryValue(): You must define an architecture."),
         this)
    | Some c => call_cpu (cpu_clearConcreteMemoryValue_mem mem) this c
    end.

Definition clearConcreteMemoryValue (baseAddr size : Z)
  : method (Architecture Cpu) unit :=
  fun this =>
    match cpu this with
    | None =>
        (Throws (ExcArchitecture
           "Architecture::clearConcreteMemoryValue(): You must define an architecture."),
         this)
    | Some c => call_cpu (cpu_clearConcreteMemoryValue baseAddr size) this c
    end.

(** ** Callers: sequences of calls on one selector *)

(** One call on the public surface, with its arguments.  The unbounded
    [disassembly(addr)] is const like the bounded form and is left to the
    driver section, where it has its fuel. *)
Inductive request : Type :=
| req_getArchitecture
| req_getEndianness
| req_getCpuInstance
| req_setArchitecture (storage_available : bool) (a : architecture_e)
| req_clearArchitecture
| req_isValid
| req_isFlag (regId : register_e)
| req_isFlag_reg (reg : Register)
| req_isRegister (regId : register_e)
| req_isRegister_reg (reg : Register)
| req_isRegisterValid (regId : register_e)
| req_isRegisterValid_reg (reg : Register)
| req_isThumb
| req_setThumb (state : bool)
| req_isMemoryExclusiveAccess
| req_setMemoryExclusiveAccess (state : bool)
| req_numberOfRegisters
| req_gprSize
| req_gprBitSize
| req_getAllRegisters
| req_getParentRegisters
| req_getProgramCounter
| req_getStackPointer
| req_getRegister (id : register_e)
| req_getRegister_name (name : string)
| req_getParentRegister (reg : Register)
| req_getParentRegister_id (id : register_e)
| req_disassembly (inst : Instruction)
| req_disassembly_count (storage_available : bool) (addr : Z) (count : nat)
| req_getConcreteMemoryValue (addr : Z) (execCallbacks : bool)
| req_getConcreteMemoryValue_mem (mem : MemoryAccess) (execCallbacks : bool)
| req_getConcreteMemoryAreaValue (baseAddr size : Z) (execCallbacks : bool)
| req_getConcreteRegisterValue (reg : Register) (execCallbacks : bool)
| req_setConcreteMemoryValue (addr value : Z)
| req_setConcreteMemoryValue_mem (mem : MemoryAccess) (value : Z)
| req_setConcreteMemoryAreaValue (baseAddr : Z) (values : list Z)
| req_setConcreteMemoryAreaValue_ptr (baseAddr : Z) (area : list Z) (size : Z)
| req_setConcreteRegisterValue (reg : Register) (value : Z)
| req_isConcreteMemoryValueDefined_mem (mem : MemoryAccess)
| req_isConcreteMemoryValueDefined (baseAddr size : Z)
| req_clearConcreteMemoryValue_mem (mem : MemoryAccess)
| req_clearConcreteMemoryValue (baseAddr size : Z).

(** A const method that cannot throw, and one that can: the object is not
    touched, the value is dropped, the exception is kept. *)
Definition total_call {A : Type} (f : Architecture Cpu -> A)
  : method (Architecture Cpu) unit :=
  fun this => (Returns tt, this).

Definition const_call {A : Type} (f : Architecture Cpu -> outcome A)
  : method (Architecture Cpu) unit :=
  fun this =>
    (match f this with Returns _ => Returns tt | Throws e => Throws e end,
     this).

Definition invoke (k : request) : method (Architecture Cpu) unit :=
  match k with
  | req_getArchitecture => total_call getArchitecture
  | req_getEndianness => const_call getEndianness
  | req_getCpuInstance => const_call getCpuInstance
  | req_setArchitecture storage_available a =>
      setArchitecture storage_available a
  | req_clearArchitecture => clearArchitecture
  | req_isValid => total_call isValid
  | req_isFlag regId => total_call (fun this => isFlag this regId)
  | req_isFlag_reg reg => total_call (fun this => isFlag_reg this reg)
  | req_isRegister regId => total_call (fun this => isRegister this regId)
  | req_isRegister_reg reg => total_call (fun this => isRegister_reg this reg)
  | req_isRegisterValid regId =>
      total_call (fun this => isRegisterValid this regId)
  | req_isRegisterValid_reg reg =>
      total_call (fun this => isRegisterValid_reg this reg)
  | req_isThumb => total_call isThumb
  | req_setThumb state => setThumb state
  | req_isMemoryExclusiveAccess => total_call isMemoryExclusiveAccess
  | req_setMemoryExclusiveAccess state => setMemoryExclusiveAccess state
  | req_numberOfRegisters => total_call numberOfRegisters
  | req_gprSize => total_call gprSize
  | req_gprBitSize => total_call gprBitSize
  | req_getAllRegisters => const_call getAllRegisters
  | req_getParentRegisters => const_call getParentRegisters
  | req_getProgramCounter => const_call getProgramCounter
  | req_getStackPointer => const_call getStackPointer
  | req_getRegister id => const_call (fun this => getRegister this id)
  | req_getRegister_name name =>
      const_call (fun this => getRegister_name this name)
  | req_getParentRegister reg =>
      const_call (fun this => getParentRegister this reg)
  | req_getParentRegister_id id =>
      const_call (fun this => getParentRegister_id this id)
  | req_disassembly inst => const_call (fun this => disassembly this inst)
  | req_disassembly_count storage_available addr count =>
      const_call
        (fun this => (disassembly_count storage_available this addr count).2)
  | req_getConcreteMemoryValue addr execCallbacks =>
      const_call (fun this => getConcreteMemoryValue this addr execCallbacks)
  | req_getConcreteMemoryValue_mem mem execCallbacks =>
      const_call
        (fun this => getConcreteMemoryValue_mem this mem execCallbacks)
  | req_getConcreteMemoryAreaValue baseAddr size execCallbacks =>
      const_call
        (fun this =>
           getConcreteMemoryAreaValue this baseAddr size execCallbacks)
  | req_getConcreteRegisterValue reg execCallbacks =>
      const_call (fun this => getConcreteRegisterValue this reg execCallbacks)
  | req_setConcreteMemoryValue addr value => setConcreteMemoryValue addr value
  | req_setConcreteMemoryValue_mem mem value =>
      setConcreteMemoryValue_mem mem value
  | req_setConcreteMemoryAreaValue baseAddr values =>
      setConcreteMemoryAreaValue baseAddr values
  | req_setConcreteMemoryAreaValue_ptr baseAddr area size =>
      setConcreteMemoryAreaValue_ptr baseAddr area size
  | req_setConcreteRegisterValue reg value =>
      setConcreteRegisterValue reg value
  | req_isConcreteMemoryValueDefined_mem mem =>
      const_call (fun this => isConcreteMemoryValueDefined_mem this mem)
  | req_isConcreteMemoryValueDefined baseAddr size =>
      const_call (fun this => isConcreteMemoryValueDefined this baseAddr size)
  | req_clearConcreteMemoryValue_mem mem => clearConcreteMemoryValue_mem mem
  | req_clearConcreteMemoryValue baseAddr size =>
      clearConcreteMemoryValue baseAddr size
  end.

(** A caller making the calls of [ks] one after the other, going on after an
    exception as a caller that catches it does. *)
Fixpoint run (ks : list request) (this : Architecture Cpu)
  : Architecture Cpu :=
  match ks with
  | [] => this
  | k :: ks => run ks (invoke k this).2
  end.

(** The requests declared non-const in the class. *)
Definition is_setArchitecture (k : request) : bool :=
  match k with
  | req_setArchitecture _ _ => true
  | _ => false
  end.

(** The allocator never ran out during [ks]. *)
Definition storage_held (ks : list request) : bool :=
  forallb (fun k =>
             match k with
             | req_setArchitecture storage_available _ => storage_available
             | _ => true
             end) ks.

(** The calls that go through a null check that throws; the bounded driver
    reaches one only when it enters its loop. *)
Definition needs_model (k : request) : bool :=
  match k with
  | req_getArchitecture | req_isValid
  | req_isFlag _ | req_isFlag_reg _
  | req_isRegister _ | req_isRegister_reg _
  | req_isRegisterValid _ | req_isRegisterValid_reg _
  | req_isThumb | req_setThumb _
  | req_isMemoryExclusiveAccess | req_setMemoryExclusiveAccess _
  | req_numberOfRegisters | req_gprSize | req_gprBitSize => false
  | req_disassembly_count _ _ count =>
      match count with O => false | S _ => true end
  | req_setArchitecture _ _ => false
  | _ => true
  end.

(** The two wordings by which the selector reports a missing model. *)
Definition reports_missing_model (e : exception) : bool :=
  match e with
  | ExcArchitecture what =>
      let tail := "You must define an architecture."%string in
      String.eqb what "Architecture::getCpuInstance(): CPU undefined."
      || String.eqb
           (String.substring
              (String.length what - String.length tail)%nat
              (String.length tail) what)
           tail
  | _ => false
  end.

(** What a call throws before it comes to any null check: only the bounded
    driver has such a step, its [reserve]. *)
Definition thrown_before_null_check (k : request) : option exception :=
  match k with
  | req_disassembly_count storage_available _ count =>
      match reserve storage_available count with
      | Throws e => Some e
      | Returns _ => None
      end
  | _ => None
  end.

(** Tag and model agree: no model exactly under the sentinel tag. *)
Definition coupled (this : Architecture Cpu) : Prop :=
  cpu this = None <-> arch this = ARCH_INVALID.

(** What every state of a selector constructed over [cb] satisfies: the
    callbacks pointer is still [cb], the tag is the sentinel or one the switch
    has a case for, and a model is only there under such a tag. *)
Definition well_formed (cb : Callbacks_ptr) (this : Architecture Cpu) : Prop :=
  callbacks this = cb
  /\ (arch this = ARCH_INVALID \/ supported (arch this) = true)
  /\ (is_Some (cpu this) -> supported (arch this) = true).

(** A log in which every read is the 16-byte read of the driver at an
    address that is defined in [c], and every decode is at such an address. *)
Definition guarded_log (c : Cpu) (log : list cpu_call) : Prop :=
  forall k, k ∈ log ->
    match k with
    | call_isConcreteMemoryValueDefined _ size => size = default_size
    | call_getConcreteMemoryAreaValue a size execCallbacks =>
        size = 16 /\ execCallbacks = default_execCallbacks
        /\ spec_defined c a = true
    | call_disassembly a => spec_defined c a = true
    end.

End Surface.

(** ** The small models, continued *)

(** The rest of the miniature model: twenty-four registers named by their
    number, byte-wise little-endian memory accesses, no register file. *)
Module ToySurface.

Definition register (id : register_e) : Register :=
  {| getId := id; getName := "r"; getBitSize := 64; getParent := id |}.

Definition lookup_register (id : register_e) : outcome Register :=
  if bool_decide (0 <= id < 24) then Returns (register id)
  else Throws (ExcCpu "getRegister(): Invalid register for this architecture.").

Definition read_byte (s : Toy.state) (addr : Z) : Z :=
  default 0 (Toy.memory s !! uint64 addr).

Fixpoint read_le (s : Toy.state) (addr : Z) (size : nat) : Z :=
  match size with
  | O => 0
  | S size => read_byte s addr + 256 * read_le s (addr + 1) size
  end.

Fixpoint bytes_le (value : Z) (size : nat) : list Z :=
  match size with
  | O => []
  | S size => value mod 256 :: bytes_le (value / 256) size
  end.

Fixpoint clear_bytes (m : gmap Z Z) (addr : Z) (size : nat) : gmap Z Z :=
  match size with
  | O => m
  | S size => clear_bytes (delete (uint64 addr) m) (addr + 1) size
  end.

Definition with_memory (s : Toy.state) (m : gmap Z Z) : Toy.state :=
  {| Toy.variant := Toy.variant s; Toy.memory := m;
     Toy.thumb := Toy.thumb s; Toy.exclusive := Toy.exclusive s |}.

#[global] Instance cpu_surface : CpuSurface Toy.state := {|
  cpu_getEndianness := fun _ => Returns 0;
  cpu_getAllRegisters := fun _ =>
    Returns ((fun id => (id, register id)) <$> seqZ 0 24);
  cpu_getParentRegisters := fun _ => Returns (register <$> seqZ 8 16);
  cpu_getProgramCounter := fun _ => Returns (register 8);
  cpu_getStackPointer := fun _ => Returns (register 9);
  cpu_getRegister := fun _ id => lookup_register id;
  cpu_getRegister_name := fun _ name =>
    Throws (ExcCpu "getRegister(): Invalid register for this architecture.");
  cpu_getParentRegister := fun _ reg => lookup_register (getParent reg);
  cpu_getParentRegister_id := fun _ id => lookup_register id;
  cpu_getConcreteMemoryValue := fun s addr _ => Returns (read_byte s addr);
  cpu_getConcreteMemoryValue_mem := fun s mem _ =>
    Returns (read_le s (accessAddress mem) (Z.to_nat (accessSize mem)));
  cpu_getConcreteRegisterValue := fun _ _ _ => Returns 0;
  cpu_setConcreteMemoryValue := fun addr value s =>
    (Returns tt, Toy.store s addr [value mod 256]);
  cpu_setConcreteMemoryValue_mem := fun mem value s =>
    (Returns tt,
     Toy.store s (accessAddress mem)
       (bytes_le value (Z.to_nat (accessSize mem))));
  cpu_setConcreteMemoryAreaValue_ptr := fun baseAddr area size s =>
    (Returns tt, Toy.store s baseAddr (take (Z.to_nat size) area));
  cpu_setConcreteRegisterValue := fun reg _ s =>
    (match lookup_register (getId reg) with
     | Returns _ => Returns tt
     | Throws e => Throws e
     end, s);
  cpu_isConcreteMemoryValueDefined_mem := fun s mem =>
    Returns (Toy.defined s (accessAddress mem) (accessSize mem));
  cpu_clearConcreteMemoryValue_mem := fun mem s =>
    (Returns tt,
     with_memory s (clear_bytes (Toy.memory s) (accessAddress mem)
                      (Z.to_nat (accessSize mem))));
  cpu_clearConcreteMemoryValue := fun baseAddr size s =>
    (Returns tt,
     with_memory s (clear_bytes (Toy.memory s) baseAddr (Z.to_nat size)));
|}.

End ToySurface.

(** A model whose decoder reports a size of zero for the opcode 0 and is a
    one-byte, non-branching instruction otherwise; its memory is the set of
    addresses below a bound. *)
Module Stalling.

Record state : Type := mkState { bound : Z }.

Definition decode (s : state) (addr : Z) (opcode : list Z)
  : outcome (Z * bool) :=
  match opcode with
  | b :: _ => if b =? 0 then Returns (0, false) else Returns (1, false)
  | [] => Throws (ExcCpu "Failed to disassemble the given code.")
  end.

#[global] Instance cpu_interface : CpuInterface state := {|
  cpu_x8664Cpu := fun _ => {| bound := 0 |};
  cpu_x86Cpu := fun _ => {| bound := 0 |};
  cpu_AArch64Cpu := fun _ => {| bound := 0 |};
  cpu_Arm32Cpu := fun _ => {| bound := 0 |};
  cpu_clear := fun _ => {| bound := 0 |};
  cpu_isFlag := fun _ _ => false;
  cpu_isRegister := fun _ _ => false;
  cpu_isRegisterValid := fun _ _ => false;
  cpu_isThumb := fun _ => false;
  cpu_setThumb := fun s _ => s;
  cpu_isMemoryExclusiveAccess := fun _ => false;
  cpu_setMemoryExclusiveAccess := fun s _ => s;
  cpu_numberOfRegisters := fun _ => 0;
  cpu_gprSize := fun _ => 0;
  cpu_gprBitSize := fun _ => 0;
  cpu_isConcreteMemoryValueDefined := fun s baseAddr size =>
    bool_decide (0 <= baseAddr /\ baseAddr + size <= bound s);
  cpu_getConcreteMemoryAreaValue := fun _ _ size _ =>
    replicate (Z.to_nat size) 0;
  cpu_setConcreteMemoryAreaValue := fun s baseAddr values =>
    {| bound := Z.max (bound s) (baseAddr + Z.of_nat (length values)) |};
  cpu_disassembly := decode;
|}.

(** Sixteen zero bytes written at address 0 of a fresh x86-64 model. *)
Definition selector : Architecture state :=
  (setConcreteMemoryAreaValue 0 (replicate 16 0)
     (setArchitecture true ARCH_X86_64 (Architecture_new 0)).2).2.

End Stalling.

(** * Properties of the selector *)

Section SelectorProperties.
Context {Cpu : Type} `{!CpuInterface Cpu} `{!HeaderDefaults}.

Implicit Types (this : Architecture Cpu) (a : architecture_e) (c : Cpu).

(** The model [setArchitecture a] constructs when storage is there. *)
Lemma setArchitecture_success a this :
  supported a = true ->
  exists c,
    setArchitecture true a this
    = (Returns tt, {| arch := a; cpu := Some c; callbacks := callbacks this |}).
Proof.
  intros Hs. destruct a; try discriminate Hs; eexists; reflexivity.
Qed.

(** When the allocator has no storage, the call leaves by the "Not enough
    memory" exception; by then [reset] has destroyed the model that was
    there, and the tag is the one recorded before. *)
Lemma setArchitecture_no_storage a this :
  supported a = true ->
  setArchitecture false a this
  = (Throws (ExcArchitecture
               "Architecture::setArchitecture(): Not enough memory."),
     {| arch := arch this; cpu := None; callbacks := callbacks this |}).
Proof. intros Hs. destruct a; try discriminate Hs; reflexivity. Qed.

Lemma setArchitecture_returns_inv ok a this this' :
  setArchitecture ok a this = (Returns tt, this') ->
  supported a = true /\ ok = true /\ arch this' = a /\ is_Some (cpu this')
  /\ callbacks this' = callbacks this.
Proof.
  destruct a, ok; cbn; intros Heq; try discriminate Heq;
    injection Heq as <-; cbn; eauto 10.
Qed.

Lemma isValid_iff this : isValid this = false <-> arch this = ARCH_INVALID.
Proof. unfold isValid. case_decide; split; congruence. Qed.

(** C5: for every tag [U] the switch has no case for, and every prior state,
    [setArchitecture U] throws "Architecture not supported." and hands the
    object back exactly as it was: same tag, same model. *)
Theorem setArchitecture_unsupported (U : architecture_e) ok this :
  supported U = false ->
  setArchitecture ok U this
  = (Throws (ExcArchitecture
       "Architecture::setArchitecture(): Architecture not supported."), this)
  /\ getArchitecture (setArchitecture ok U this).2 = getArchitecture this
  /\ cpu (setArchitecture ok U this).2 = cpu this.
Proof.
  intros Hu. destruct U; try discriminate Hu; repeat split.
Qed.

(** C7: for every supported tag [T] the call succeeds once the allocator
    delivers, and after any successful [setArchitecture T] the selector
    reports tag [T] and is valid. *)
Theorem setArchitecture_then_query (T : architecture_e) this :
  supported T = true ->
  (exists this', setArchitecture true T this = (Returns tt, this'))
  /\ (forall ok this',
        setArchitecture ok T this = (Returns tt, this') ->
        getArchitecture this' = T /\ isValid this' = true).
Proof.
  intros Hs. split.
  - destruct (setArchitecture_success T this Hs) as [c Hc]. eauto.
  - intros ok this' Hret.
    destruct (setArchitecture_returns_inv _ _ _ _ Hret) as (_ & _ & Ha & _).
    split; [exact Ha|].
    unfold isValid. rewrite Ha. destruct T; try discriminate Hs; reflexivity.
Qed.

(** A freshly constructed selector is not valid, and [isValid] is false
    under the tag [ARCH_INVALID]; with no model active every capability query
    answers [false] and every size query answers zero, none of them throws. *)
Lemma queries_without_model :
  (forall cb, isValid (Architecture_new (Cpu:=Cpu) cb) = false
              /\ cpu (Architecture_new (Cpu:=Cpu) cb) = None)
  /\ (forall this, arch this = ARCH_INVALID -> isValid this = false)
  /\ (forall this, cpu this = None ->
        (forall regId, isFlag this regId = false
                       /\ isRegister this regId = false
                       /\ isRegisterValid this regId = false)
        /\ isThumb this = false
        /\ isMemoryExclusiveAccess this = false
        /\ numberOfRegisters this = 0
        /\ gprSize this = 0
        /\ gprBitSize this = 0).
Proof.
  split; [intros cb; split; reflexivity|].
  split; [intros this Ha; by apply isValid_iff|].
  intros this Hc.
  unfold isFlag, isRegister, isRegisterValid, isThumb,
    isMemoryExclusiveAccess, numberOfRegisters, gprSize, gprBitSize.
  rewrite Hc. repeat split.
Qed.

(** C6, as amended: [setThumb] and [setMemoryExclusiveAccess] forward to the
    model when one is active; with no model active they return normally and
    leave the selector as it was. *)
Theorem mode_setters_guarded (state : bool) this :
  (cpu this = None ->
     setThumb state this = (Returns tt, this)
     /\ setMemoryExclusiveAccess state this = (Returns tt, this))
  /\ (forall c, cpu this = Some c ->
        setThumb state this
        = (Returns tt, {| arch := arch this;
                          cpu := Some (cpu_setThumb c state);
                          callbacks := callbacks this |})
        /\ setMemoryExclusiveAccess state this
           = (Returns tt, {| arch := arch this;
                             cpu := Some (cpu_setMemoryExclusiveAccess c state);
                             callbacks := callbacks this |})).
Proof.
  destruct this as [a [c|] cb]; cbn; split.
  - intros [=].
  - intros c' [= <-]. split; reflexivity.
  - intros _. split; reflexivity.
  - intros c' [=].
Qed.

(** C9: with no model active [clearArchitecture] throws "You must define an
    architecture." and changes nothing; with a model active it asks the model
    to clear itself and keeps both the model and the tag, so that after a
    successful [setArchitecture T] the tag still reads [T]. *)
Theorem clearArchitecture_keeps_identity :
  (forall this, cpu this = None ->
     clearArchitecture this
     = (Throws (ExcArchitecture
          "Architecture::clearArchitecture(): You must define an architecture."),
        this))
  /\ (forall this c, cpu this = Some c ->
        clearArchitecture this
        = (Returns tt, {| arch := arch this; cpu := Some (cpu_clear c);
                          callbacks := callbacks this |}))
  /\ (forall T ok this this',
        setArchitecture ok T this = (Returns tt, this') ->
        exists this'',
          clearArchitecture this' = (Returns tt, this'')
          /\ getArchitecture this'' = T
          /\ is_Some (cpu this'')).
Proof.
  split; [|split].
  - intros [a p cb]; cbn. by intros ->.
  - intros [a p cb] c; cbn. by intros ->.
  - intros T ok this this' Hret.
    destruct (setArchitecture_returns_inv _ _ _ _ Hret)
      as (_ & _ & Ha & [c Hc] & _).
    destruct this' as [a p cb]; cbn in *; subst.
    eexists; repeat split; eauto.
Qed.

End SelectorProperties.

(** * Properties of the disassembly driver *)

Section DriverProperties.
Context {Cpu : Type} `{!CpuInterface Cpu} `{!HeaderDefaults}.
Context `{!VectorLimits}.

Implicit Types (this : Architecture Cpu) (c : Cpu) (addr : Z).
Implicit Types (inst : Instruction) (l ret rest : list Instruction).
Implicit Types (log asked : list cpu_call).

(** ** One turn of the loop *)

Lemma fetch_decode_active this c addr :
  cpu this = Some c ->
  fetch_decode this addr
  = if spec_defined c addr
    then match cpu_disassembly c addr (spec_window c addr) with
         | Returns (size, controlFlow) =>
             (step_calls addr,
              Returns (Some {| getAddress := addr;
                               getOpcode := spec_window c addr;
                               getSize := uint32 size;
                               isControlFlow := controlFlow |}))
         | Throws e => (step_calls addr, Throws e)
         end
    else ([call_isConcreteMemoryValueDefined addr default_size],
          Returns None).
Proof.
  intros Hc.
  unfold fetch_decode, isConcreteMemoryValueDefined,
    getConcreteMemoryAreaValue, disassembly, spec_defined, spec_window.
  rewrite Hc. cbn.
  destruct (cpu_isConcreteMemoryValueDefined c addr default_size); [|done].
  destruct (cpu_disassembly _ _ _) as [[size cf]|e]; done.
Qed.

Lemma fetch_decode_undefined this c addr :
  cpu this = Some c ->
  spec_defined c addr = false ->
  fetch_decode this addr
  = ([call_isConcreteMemoryValueDefined addr default_size], Returns None).
Proof. intros Hc Hd. by rewrite (fetch_decode_active _ c), Hd. Qed.

Lemma fetch_decode_decoded this c addr inst :
  cpu this = Some c ->
  spec_decoded_at c addr inst ->
  fetch_decode this addr = (step_calls addr, Returns (Some inst)).
Proof.
  intros Hc (Hd & size & cf & Hdec & ->).
  by rewrite (fetch_decode_active _ c), Hd, Hdec.
Qed.

Lemma fetch_decode_Some_inv this c addr asked inst :
  cpu this = Some c ->
  fetch_decode this addr = (asked, Returns (Some inst)) ->
  spec_decoded_at c addr inst /\ asked = step_calls addr.
Proof.
  intros Hc. rewrite (fetch_decode_active _ c) by done.
  destruct (spec_defined c addr) eqn:Hd; [|done].
  destruct (cpu_disassembly _ _ _) as [[size cf]|e] eqn:Hdec; [|done].
  intros [= <- <-]. split; [|done].
  split; [done|]. by exists size, cf.
Qed.

Lemma fetch_decode_None_inv this c addr asked :
  cpu this = Some c ->
  fetch_decode this addr = (asked, Returns None) ->
  spec_defined c addr = false
  /\ asked = [call_isConcreteMemoryValueDefined addr default_size].
Proof.
  intros Hc. rewrite (fetch_decode_active _ c) by done.
  destruct (spec_defined c addr) eqn:Hd.
  - destruct (cpu_disassembly _ _ _) as [[size cf]|e]; done.
  - by intros [= <-].
Qed.

Lemma fetch_decode_Throws_inv this c addr asked e :
  cpu this = Some c ->
  fetch_decode this addr = (asked, Throws e) ->
  spec_defined c addr = true
  /\ cpu_disassembly c addr (spec_window c addr) = Throws e.
Proof.
  intros Hc. rewrite (fetch_decode_active _ c) by done.
  destruct (spec_defined c addr) eqn:Hd; [|done].
  destruct (cpu_disassembly _ _ _) as [[size cf]|e']; [done|].
  by intros [= <- <-].
Qed.

Lemma spec_decoded_at_address c addr inst :
  spec_decoded_at c addr inst -> getAddress inst = addr.
Proof. by intros (_ & size & cf & _ & ->). Qed.

Lemma spec_decoded_at_opcode c addr inst :
  spec_decoded_at c addr inst -> getOpcode inst = spec_window c addr.
Proof. by intros (_ & size & cf & _ & ->). Qed.

Lemma spec_decoded_at_defined c addr inst :
  spec_decoded_at c addr inst -> spec_defined c addr = true.
Proof. by intros (? & _). Qed.

(** ** The accumulators *)

Lemma prepend_app ret ret' r :
  prepend ret (prepend ret' r) = prepend (ret ++ ret') r.
Proof. destruct r; cbn; [|done]. by rewrite app_assoc. Qed.

Lemma disassembly_count_loop_acc this ret log addr count :
  disassembly_count_loop this ret log addr count
  = (log ++ (disassembly_count_body this addr count).1,
     prepend ret (disassembly_count_body this addr count).2).
Proof.
  unfold disassembly_count_body.
  revert ret log addr. induction count as [|count IH]; intros ret log addr.
  - cbn. by rewrite !app_nil_r.
  - cbn. destruct (fetch_decode this addr) as [asked [[inst|]|e]]; cbn.
    + rewrite (IH (ret ++ [inst]) (log ++ asked)).
      rewrite (IH [inst] asked). cbn.
      by rewrite prepend_app, app_assoc.
    + by rewrite app_nil_r.
    + done.
Qed.

Lemma disassembly_count_S this addr count :
  disassembly_count_body this addr (S count)
  = match fetch_decode this addr with
    | (asked, Throws e) => (asked, Throws e)
    | (asked, Returns None) => (asked, Returns [])
    | (asked, Returns (Some inst)) =>
        let r :=
          disassembly_count_body this (uint64 (addr + getSize inst)) count in
        (asked ++ r.1, prepend [inst] r.2)
    end.
Proof.
  unfold disassembly_count_body at 1. cbn.
  destruct (fetch_decode this addr) as [asked [[inst|]|e]]; cbn; try done.
  by rewrite disassembly_count_loop_acc.
Qed.

Lemma back_isControlFlow_snoc ret inst :
  back_isControlFlow (ret ++ [inst]) = isControlFlow inst.
Proof. unfold back_isControlFlow. by rewrite last_snoc. Qed.

Lemma disassembly_addr_loop_acc this ret log addr fuel :
  disassembly_addr_loop this ret log addr fuel
  = (log ++ (disassembly_addr this addr fuel).1,
     prepend_opt ret (disassembly_addr this addr fuel).2).
Proof.
  unfold disassembly_addr.
  revert ret log addr. induction fuel as [|fuel IH]; intros ret log addr.
  - cbn. by rewrite app_nil_r.
  - cbn. destruct (fetch_decode this addr) as [asked [[inst|]|e]]; cbn.
    + rewrite back_isControlFlow_snoc.
      change (back_isControlFlow [inst]) with (isControlFlow inst).
      destruct (isControlFlow inst); cbn.
      * done.
      * rewrite (IH (ret ++ [inst]) (log ++ asked)).
        rewrite (IH [inst] asked). cbn.
        rewrite app_assoc. f_equal.
        destruct (disassembly_addr_loop this [] [] _ fuel).2 as [r|]; cbn;
          [|done].
        by rewrite prepend_app.
    + by rewrite app_nil_r.
    + done.
Qed.

Lemma disassembly_addr_S this addr fuel :
  disassembly_addr this addr (S fuel)
  = match fetch_decode this addr with
    | (asked, Throws e) => (asked, Some (Throws e))
    | (asked, Returns None) => (asked, Some (Returns []))
    | (asked, Returns (Some inst)) =>
        if isControlFlow inst then (asked, Some (Returns [inst]))
        else
          let r := disassembly_addr this (uint64 (addr + getSize inst)) fuel in
          (asked ++ r.1, prepend_opt [inst] r.2)
    end.
Proof.
  unfold disassembly_addr at 1. cbn.
  destruct (fetch_decode this addr) as [asked [[inst|]|e]]; cbn; try done.
  change (back_isControlFlow [inst]) with (isControlFlow inst).
  destruct (isControlFlow inst); [done|].
  by rewrite disassembly_addr_loop_acc.
Qed.

(** ** The bounded form against its specification *)

Lemma disassembly_count_refines this c addr count l :
  cpu this = Some c ->
  (disassembly_count_body this addr count).2 = Returns l
  <-> spec_bounded_run c count addr l.
Proof.
  intros Hc. split.
  - revert addr l. induction count as [|count IH]; intros addr l.
    + cbn. intros [= <-]. constructor.
    + rewrite disassembly_count_S.
      destruct (fetch_decode this addr) as [asked [[inst|]|e]] eqn:Hf; cbn.
      * destruct (fetch_decode_Some_inv _ _ _ _ _ Hc Hf) as [Hdec _].
        destruct (disassembly_count_body this _ count).2 as [rest|e] eqn:Hr;
          cbn; [|done].
        intros [= <-]. apply bounded_step; [done|]. by apply IH.
      * destruct (fetch_decode_None_inv _ _ _ _ Hc Hf) as [Hd _].
        intros [= <-]. by apply bounded_undefined.
      * done.
  - induction 1 as [addr|count addr Hd|count addr inst rest Hdec _ IH].
    + done.
    + rewrite disassembly_count_S.
      by rewrite (fetch_decode_undefined _ c).
    + rewrite disassembly_count_S.
      rewrite (fetch_decode_decoded _ c _ inst) by done. cbn.
      by rewrite IH.
Qed.

Lemma end_address_cons addr inst l :
  end_address addr (inst :: l)
  = end_address (uint64 (addr + getSize inst)) l.
Proof. reflexivity. Qed.

Lemma spec_bounded_run_length c count addr l :
  spec_bounded_run c count addr l -> (length l <= count)%nat.
Proof. induction 1; cbn; lia. Qed.

Lemma spec_bounded_run_head c count addr l inst :
  spec_bounded_run c count addr l ->
  l !! 0%nat = Some inst -> getAddress inst = addr.
Proof.
  destruct 1 as [| |count addr inst' rest Hdec _]; cbn; try done.
  intros [= <-]. by eapply spec_decoded_at_address.
Qed.

Lemma spec_bounded_run_consecutive c count addr l i inst next :
  spec_bounded_run c count addr l ->
  l !! i = Some inst -> l !! S i = Some next ->
  getAddress next = uint64 (getAddress inst + getSize inst).
Proof.
  intros Hrun. revert i.
  induction Hrun as [| |count addr inst' rest Hdec Hrest IH]; intros i;
    try done.
  destruct i as [|i]; cbn.
  - intros [= <-] Hnext.
    rewrite (spec_decoded_at_address _ _ _ Hdec).
    by eapply spec_bounded_run_head.
  - apply IH.
Qed.

Lemma spec_bounded_run_decoded c count addr l inst :
  spec_bounded_run c count addr l ->
  inst ∈ l -> spec_decoded_at c (getAddress inst) inst.
Proof.
  induction 1 as [| |count addr inst' rest Hdec _ IH];
    try (by intros ?%elem_of_nil).
  intros [->|Hin]%elem_of_cons; [|by apply IH].
  by rewrite (spec_decoded_at_address _ _ _ Hdec).
Qed.

Lemma spec_bounded_run_short c count addr l :
  spec_bounded_run c count addr l ->
  (length l < count)%nat -> spec_defined c (end_address addr l) = false.
Proof.
  induction 1 as [| |count addr inst rest Hdec _ IH]; cbn [length].
  - lia.
  - done.
  - intros Hlt. rewrite end_address_cons. apply IH. lia.
Qed.

Lemma disassembly_count_log this c addr count log l :
  cpu this = Some c ->
  disassembly_count_body this addr count = (log, Returns l) ->
  log = calls_of l
        ++ (if decide (length l < count)%nat
            then [call_isConcreteMemoryValueDefined (end_address addr l)
                    default_size]
            else []).
Proof.
  intros Hc. revert addr log l.
  induction count as [|count IH]; intros addr log l.
  - cbn. by intros [= <- <-].
  - rewrite disassembly_count_S.
    destruct (fetch_decode this addr) as [asked [[inst|]|e]] eqn:Hf; cbn.
    + destruct (fetch_decode_Some_inv _ _ _ _ _ Hc Hf) as [Hdec ->].
      destruct (disassembly_count_body this _ count) as [log' [rest|e]] eqn:Hr;
        cbn; [|done].
      intros [= <- <-]. rewrite (IH _ _ _ Hr).
      rewrite end_address_cons. cbn [calls_of flat_map length].
      rewrite (spec_decoded_at_address _ _ _ Hdec), <- app_assoc.
      repeat case_decide; first [done | lia].
    + destruct (fetch_decode_None_inv _ _ _ _ Hc Hf) as [_ ->].
      intros [= <- <-]. cbn. case_decide; [done | lia].
    + done.
Qed.

Lemma disassembly_count_Throws this c addr count e :
  cpu this = Some c ->
  (disassembly_count_body this addr count).2 = Throws e ->
  exists a, spec_defined c a = true
            /\ cpu_disassembly c a (spec_window c a) = Throws e.
Proof.
  intros Hc. revert addr. induction count as [|count IH]; intros addr.
  - done.
  - rewrite disassembly_count_S.
    destruct (fetch_decode this addr) as [asked [[inst|]|e']] eqn:Hf; cbn.
    + destruct (disassembly_count_body this _ count).2 as [rest|e'] eqn:Hr;
        cbn; [done|].
      intros [= ->]. by eapply IH.
    + done.
    + intros [= ->]. exists addr. by eapply fetch_decode_Throws_inv.
Qed.

(** The loop of the bounded form against the specification, with a model
    active: it returns exactly the runs the bounded form of the specification
    describes, and what it returns and asks is as listed. *)
Lemma disassembly_count_body_bounded this c addr count :
  cpu this = Some c ->
  (forall l, (disassembly_count_body this addr count).2 = Returns l
             <-> spec_bounded_run c count addr l)
  /\ (forall log l,
        disassembly_count_body this addr count = (log, Returns l) ->
        (length l <= count)%nat
        /\ (forall inst, l !! 0%nat = Some inst -> getAddress inst = addr)
        /\ (forall i inst next,
              l !! i = Some inst -> l !! S i = Some next ->
              getAddress next = uint64 (getAddress inst + getSize inst)
              /\ (0 <= getAddress inst + getSize inst < 2 ^ 64 ->
                  getAddress next = getAddress inst + getSize inst))
        /\ (forall inst, inst ∈ l ->
              spec_defined c (getAddress inst) = true
              /\ getOpcode inst = spec_window c (getAddress inst)
              /\ spec_decoded_at c (getAddress inst) inst)
        /\ ((length l < count)%nat ->
            spec_defined c (end_address addr l) = false)
        /\ log = calls_of l
                 ++ (if decide (length l < count)%nat
                     then [call_isConcreteMemoryValueDefined
                             (end_address addr l) default_size]
                     else []))
  /\ (forall e, (disassembly_count_body this addr count).2 = Throws e ->
        exists a, spec_defined c a = true
                  /\ cpu_disassembly c a (spec_window c a) = Throws e)
  /\ (spec_defined c addr = false ->
      (disassembly_count_body this addr count).2 = Returns []).
Proof.
  intros Hc. split; [|split; [|split]].
  - intros l. by apply disassembly_count_refines.
  - intros log l Heq.
    assert (spec_bounded_run c count addr l) as Hrun.
    { apply (disassembly_count_refines this); [done|]. by rewrite Heq. }
    split; [by eapply spec_bounded_run_length|].
    split; [intros inst; by eapply spec_bounded_run_head|].
    split.
    { intros i inst next Hi Hnext.
      pose proof (spec_bounded_run_consecutive _ _ _ _ _ _ _ Hrun Hi Hnext)
        as Hcons.
      split; [done|]. intros Hfit. rewrite Hcons. by apply Z.mod_small. }
    split.
    { intros inst Hin.
      pose proof (spec_bounded_run_decoded _ _ _ _ _ Hrun Hin) as Hdec.
      split; [by eapply spec_decoded_at_defined|].
      split; [by eapply spec_decoded_at_opcode|done]. }
    split; [by eapply spec_bounded_run_short|].
    by eapply disassembly_count_log.
  - intros e. by apply disassembly_count_Throws.
  - intros Hd. apply (disassembly_count_refines this c); [done|].
    destruct count; by constructor.
Qed.

(** ** [reserve] and the whole bounded method *)

Lemma reserve_Returns ok count :
  reserve ok count = Returns tt
  <-> Z.of_nat count <= max_size /\ (count = O \/ ok = true).
Proof.
  unfold reserve. case_decide as Hmax.
  - split; [done|]. intros [Hle _]. lia.
  - destruct count as [|count].
    { split; [|done]. intros _. split; [lia|by left]. }
    destruct ok.
    + split; [|done]. intros _. split; [lia|by right].
    + split; [done|]. by intros [_ [?|?]].
Qed.

Lemma reserve_zero ok : reserve ok O = Returns tt.
Proof.
  apply reserve_Returns. pose proof max_size_range.
  split; [cbn; lia|by left].
Qed.

(** A count in the upper half of the 64-bit range, [usize(-1)] for one, is
    above every [max_size]. *)
Lemma reserve_beyond_max_size ok count :
  2 ^ 63 <= Z.of_nat count -> reserve ok count = Throws ExcLengthError.
Proof.
  intros Hcount. unfold reserve. pose proof max_size_range.
  rewrite decide_True by lia. done.
Qed.

Lemma disassembly_count_reserved ok this addr count :
  reserve ok count = Returns tt ->
  disassembly_count ok this addr count = disassembly_count_body this addr count.
Proof. unfold disassembly_count. by intros ->. Qed.

Lemma disassembly_count_not_reserved ok this addr count e :
  reserve ok count = Throws e ->
  disassembly_count ok this addr count = ([], Throws e).
Proof. unfold disassembly_count. by intros ->. Qed.

Lemma disassembly_count_cases ok this addr count :
  (reserve ok count = Returns tt
   /\ disassembly_count ok this addr count
      = disassembly_count_body this addr count)
  \/ (exists e, reserve ok count = Throws e
                /\ disassembly_count ok this addr count = ([], Throws e)).
Proof.
  destruct (reserve ok count) as [[]|e] eqn:Hres.
  - left. split; [done|]. by apply disassembly_count_reserved.
  - right. exists e. split; [done|]. by apply disassembly_count_not_reserved.
Qed.

(** C4, as amended: [ret.reserve(count)] comes first.  It succeeds exactly
    when [count] is at most the [max_size] of the vector and, unless [count]
    is zero, the storage is there; when it throws, the call ends with that
    exception and has asked nothing of the selector.  When it succeeds and a
    model is active, [disassembly(addr, count)] returns exactly the runs the
    bounded form of the specification describes.  What it returns has at most
    [count] instructions; the first sits at [addr] and each next one at the
    previous address plus the previous decoded size (in 64-bit arithmetic, so
    literally whenever the sum fits); every instruction was decoded from the
    16-byte window read at its own, defined, address; a run shorter than
    [count] stopped at an undefined address; and the calls made are one
    definedness test, one 16-byte read and one decode per instruction, plus
    the failed test of an early stop.  Undefined memory never turns into an
    exception: past [reserve] the only exceptions are the decoder's own. *)
Theorem disassembly_count_bounded ok this c addr count :
  cpu this = Some c ->
  (reserve ok count = Returns tt
   <-> Z.of_nat count <= max_size /\ (count = O \/ ok = true))
  /\ (forall e, reserve ok count = Throws e ->
        disassembly_count ok this addr count = ([], Throws e))
  /\ (reserve ok count = Returns tt ->
      (forall l, (disassembly_count ok this addr count).2 = Returns l
                 <-> spec_bounded_run c count addr l)
      /\ (forall log l,
            disassembly_count ok this addr count = (log, Returns l) ->
            (length l <= count)%nat
            /\ (forall inst, l !! 0%nat = Some inst -> getAddress inst = addr)
            /\ (forall i inst next,
                  l !! i = Some inst -> l !! S i = Some next ->
                  getAddress next = uint64 (getAddress inst + getSize inst)
                  /\ (0 <= getAddress inst + getSize inst < 2 ^ 64 ->
                      getAddress next = getAddress inst + getSize inst))
            /\ (forall inst, inst ∈ l ->
                  spec_defined c (getAddress inst) = true
                  /\ getOpcode inst = spec_window c (getAddress inst)
                  /\ spec_decoded_at c (getAddress inst) inst)
            /\ ((length l < count)%nat ->
                spec_defined c (end_address addr l) = false)
            /\ log = calls_of l
                     ++ (if decide (length l < count)%nat
                         then [call_isConcreteMemoryValueDefined
                                 (end_address addr l) default_size]
                         else []))
      /\ (forall e, (disassembly_count ok this addr count).2 = Throws e ->
            exists a, spec_defined c a = true
                      /\ cpu_disassembly c a (spec_window c a) = Throws e)
      /\ (spec_defined c addr = false ->
          (disassembly_count ok this addr count).2 = Returns [])).
Proof.
  intros Hc. split; [apply reserve_Returns|].
  split; [intros e; apply disassembly_count_not_reserved|].
  intros Hres. rewrite (disassembly_count_reserved ok this addr count Hres).
  by apply disassembly_count_body_bounded.
Qed.

(** With no model active and a count of at least one, the first thing the
    loop does is the definedness test, and that is where the call ends. *)
Lemma disassembly_count_without_model this addr count :
  cpu this = None ->
  disassembly_count_body this addr (S count)
  = ([call_isConcreteMemoryValueDefined addr default_size],
     Throws (ExcArchitecture
       "Architecture::isConcreteMemoryValueDefined(): You must define an architecture.")).
Proof.
  intros Hc. rewrite disassembly_count_S.
  unfold fetch_decode, isConcreteMemoryValueDefined. by rewrite Hc.
Qed.

(** C10: with a count of zero [reserve] has nothing to do and the loop body
    is never entered: whatever the state of the selector, no model active
    included, and whatever the allocator would answer, the call makes no call
    on memory or on the model and returns the empty vector. *)
Theorem disassembly_count_zero ok this addr :
  disassembly_count ok this addr O = ([], Returns []).
Proof.
  rewrite (disassembly_count_reserved ok this addr O (reserve_zero ok)).
  reflexivity.
Qed.

(** ** The unbounded form against its specification *)

Lemma disassembly_addr_sound this c addr fuel l :
  cpu this = Some c ->
  (disassembly_addr this addr fuel).2 = Some (Returns l) ->
  spec_unbounded_run c addr l.
Proof.
  intros Hc. revert addr l. induction fuel as [|fuel IH]; intros addr l.
  - done.
  - rewrite disassembly_addr_S.
    destruct (fetch_decode this addr) as [asked [[inst|]|e]] eqn:Hf; cbn.
    + destruct (fetch_decode_Some_inv _ _ _ _ _ Hc Hf) as [Hdec _].
      destruct (isControlFlow inst) eqn:Hcf; cbn.
      * intros [= <-]. by apply unbounded_control_flow.
      * destruct (disassembly_addr this _ fuel).2 as [[rest|e]|] eqn:Hr;
          cbn; try done.
        intros [= <-]. apply unbounded_step; [done..|]. by apply IH.
    + destruct (fetch_decode_None_inv _ _ _ _ Hc Hf) as [Hd _].
      intros [= <-]. by apply unbounded_undefined.
    + done.
Qed.

Lemma disassembly_addr_complete this c addr l :
  cpu this = Some c ->
  spec_unbounded_run c addr l ->
  (disassembly_addr this addr (S (length l))).2 = Some (Returns l).
Proof.
  intros Hc.
  induction 1 as [addr Hd|addr inst Hdec Hcf|addr inst rest Hdec Hcf _ IH].
  - rewrite disassembly_addr_S. by rewrite (fetch_decode_undefined _ c).
  - rewrite disassembly_addr_S.
    rewrite (fetch_decode_decoded _ c _ inst) by done. by rewrite Hcf.
  - rewrite disassembly_addr_S.
    rewrite (fetch_decode_decoded _ c _ inst) by done. rewrite Hcf.
    cbn [length]. cbn zeta. cbn [snd]. by rewrite IH.
Qed.

(** Fuel beyond what the loop needs changes nothing. *)
Lemma disassembly_addr_more_fuel this addr fuel fuel' r :
  (disassembly_addr this addr fuel).2 = Some r ->
  (fuel <= fuel')%nat ->
  disassembly_addr this addr fuel' = disassembly_addr this addr fuel.
Proof.
  revert addr fuel' r. induction fuel as [|fuel IH]; intros addr fuel' r.
  - done.
  - intros Hr Hle. destruct fuel' as [|fuel']; [lia|].
    revert Hr. rewrite !disassembly_addr_S.
    destruct (fetch_decode this addr) as [asked [[inst|]|e]]; try done.
    destruct (isControlFlow inst); [done|]. cbn.
    destruct (disassembly_addr this _ fuel).2 as [r'|] eqn:Hr'; [|done].
    intros _. rewrite (IH _ fuel' r') by (done || lia). by rewrite Hr'.
Qed.

Lemma spec_unbounded_run_flags c addr l i inst :
  spec_unbounded_run c addr l ->
  l !! i = Some inst -> (S i < length l)%nat -> isControlFlow inst = false.
Proof.
  intros Hrun. revert i.
  induction Hrun as [addr Hd|addr inst' Hdec Hcf
                    |addr inst' rest Hdec Hcf _ IH]; intros i.
  - done.
  - destruct i; cbn; [lia|done].
  - destruct i as [|i]; cbn.
    + by intros [= <-].
    + intros Hi Hlen. apply (IH i Hi). lia.
Qed.

Lemma spec_unbounded_run_head c addr l inst :
  spec_unbounded_run c addr l ->
  l !! 0%nat = Some inst -> getAddress inst = addr.
Proof.
  destruct 1 as [|addr inst' Hdec _|addr inst' rest Hdec _ _]; cbn;
    try done; intros [= <-]; by eapply spec_decoded_at_address.
Qed.

Lemma spec_unbounded_run_consecutive c addr l i inst next :
  spec_unbounded_run c addr l ->
  l !! i = Some inst -> l !! S i = Some next ->
  getAddress next = uint64 (getAddress inst + getSize inst).
Proof.
  intros Hrun. revert i.
  induction Hrun as [addr Hd|addr inst' Hdec Hcf
                    |addr inst' rest Hdec Hcf Hrest IH]; intros i.
  - done.
  - by destruct i.
  - destruct i as [|i]; cbn.
    + intros [= <-] Hnext.
      rewrite (spec_decoded_at_address _ _ _ Hdec).
      by eapply spec_unbounded_run_head.
    + apply IH.
Qed.

Lemma spec_unbounded_run_ended c addr l :
  spec_unbounded_run c addr l -> run_ended c addr (Returns l).
Proof.
  induction 1 as [addr Hd|addr inst Hdec Hcf|addr inst rest Hdec Hcf Hrest IH].
  - by right.
  - left. by exists inst.
  - destruct IH as [(inst' & Hlast & Hcf')|Hd].
    + left. exists inst'. split; [|done].
      destruct rest; [done|]. by rewrite last_cons, Hlast.
    + right. by rewrite end_address_cons.
Qed.

(** C3: with a model active, [disassembly(addr)] returns exactly the runs
    the unbounded form of the specification describes: consecutive decodes,
    until the address at hand is undefined or the instruction just decoded
    is control-flow, that instruction included.  In a returned run only the
    last instruction can carry the control-flow flag, and the run ended
    either on such an instruction or at an undefined address.  If the third
    instruction is the first control-flow one the result is those three; if
    [addr] itself is undefined the result is the empty vector, after the
    one definedness test, and no exception. *)
Theorem disassembly_addr_until_control_flow this c addr :
  cpu this = Some c ->
  (forall l, (exists fuel,
                (disassembly_addr this addr fuel).2 = Some (Returns l))
             <-> spec_unbounded_run c addr l)
  /\ (forall fuel l,
        (disassembly_addr this addr fuel).2 = Some (Returns l) ->
        (forall i inst, l !! i = Some inst -> (S i < length l)%nat ->
                        isControlFlow inst = false)
        /\ (forall inst, l !! 0%nat = Some inst -> getAddress inst = addr)
        /\ (forall i inst next,
              l !! i = Some inst -> l !! S i = Some next ->
              getAddress next = uint64 (getAddress inst + getSize inst))
        /\ ((exists inst, last l = Some inst /\ isControlFlow inst = true)
            \/ spec_defined c (end_address addr l) = false))
  /\ (forall i1 i2 i3,
        spec_decoded_at c addr i1 -> isControlFlow i1 = false ->
        spec_decoded_at c (end_address addr [i1]) i2 ->
        isControlFlow i2 = false ->
        spec_decoded_at c (end_address addr [i1; i2]) i3 ->
        isControlFlow i3 = true ->
        forall fuel, (3 <= fuel)%nat ->
          (disassembly_addr this addr fuel).2 = Some (Returns [i1; i2; i3])
          /\ isControlFlow <$> [i1; i2; i3] = [false; false; true])
  /\ (spec_defined c addr = false ->
      forall fuel,
        disassembly_addr this addr (S fuel)
        = ([call_isConcreteMemoryValueDefined addr default_size],
           Some (Returns []))).
Proof.
  intros Hc. split; [|split; [|split]].
  - intros l. split.
    + intros [fuel Hr]. by eapply disassembly_addr_sound.
    + intros Hrun. eexists. by apply (disassembly_addr_complete this c).
  - intros fuel l Hr.
    pose proof (disassembly_addr_sound _ _ _ _ _ Hc Hr) as Hrun.
    split; [intros i inst; by eapply spec_unbounded_run_flags|].
    split; [intros inst; by eapply spec_unbounded_run_head|].
    split; [intros i inst next; by eapply spec_unbounded_run_consecutive|].
    apply (spec_unbounded_run_ended _ _ _ Hrun).
  - intros i1 i2 i3 H1 F1 H2 F2 H3 F3 fuel Hfuel.
    split; [|cbn; by rewrite F1, F2, F3].
    assert ((disassembly_addr this addr 3).2 = Some (Returns [i1; i2; i3]))
      as Hr.
    { rewrite disassembly_addr_S.
      rewrite (fetch_decode_decoded _ c _ i1), F1 by done. cbn zeta.
      rewrite disassembly_addr_S.
      rewrite (fetch_decode_decoded _ c _ i2), F2 by done. cbn zeta.
      rewrite disassembly_addr_S.
      by rewrite (fetch_decode_decoded _ c _ i3), F3 by done. }
    by rewrite (disassembly_addr_more_fuel _ _ _ fuel _ Hr).
  - intros Hd fuel. rewrite disassembly_addr_S.
    by rewrite (fetch_decode_undefined _ c).
Qed.

(** ** When the unbounded form comes to an end *)

Lemma uint64_range z : 0 <= uint64 z < 2 ^ 64.
Proof. unfold uint64. apply Z.mod_pos_bound. done. Qed.

(** A step of [s] bytes that does not overshoot [gap] brings the walk [s]
    bytes closer to it, wrap-around included. *)
Lemma uint64_closer gap addr s :
  0 <= s <= uint64 (gap - addr) ->
  uint64 (gap - uint64 (addr + s)) = uint64 (gap - addr) - s.
Proof.
  intros Hs. pose proof (uint64_range (gap - addr)) as Hd. revert Hs Hd.
  unfold uint64. intros Hs Hd.
  rewrite Zminus_mod_idemp_r.
  replace (gap - (addr + s)) with ((gap - addr) - s) by lia.
  rewrite <- Zminus_mod_idemp_l. apply Z.mod_small. lia.
Qed.

(** A step that overshoots [gap] lands that much behind it. *)
Lemma uint64_overshoot gap addr s :
  uint64 (addr + s) = uint64 (gap + (s - uint64 (gap - addr))).
Proof.
  unfold uint64.
  replace (gap + (s - (gap - addr) mod 2 ^ 64))
    with ((gap + s) - (gap - addr) mod 2 ^ 64) by lia.
  rewrite Zminus_mod_idemp_r. f_equal. lia.
Qed.

Lemma uint64_at_gap gap addr :
  0 <= addr < 2 ^ 64 -> uint64 (gap - addr) = 0 -> addr = uint64 (gap + 0).
Proof.
  intros Ha Hd. rewrite <- (Z.mod_small addr (2 ^ 64)) at 1 by done.
  change (addr mod 2 ^ 64) with (uint64 addr).
  replace addr with (addr + 0) at 1 by lia.
  rewrite (uint64_overshoot gap addr 0), Hd. done.
Qed.

Lemma disassembly_addr_ended_step this c addr inst fuel r :
  cpu this = Some c ->
  spec_decoded_at c addr inst ->
  isControlFlow inst = false ->
  (disassembly_addr this (uint64 (addr + getSize inst)) fuel).2 = Some r ->
  run_ended c (uint64 (addr + getSize inst)) r ->
  (disassembly_addr this addr (S fuel)).2 = Some (prepend [inst] r)
  /\ run_ended c addr (prepend [inst] r).
Proof.
  intros Hc Hdec Hcf Hr Hend. split.
  - rewrite disassembly_addr_S.
    rewrite (fetch_decode_decoded _ c _ inst), Hcf by done. cbn zeta.
    cbn [snd]. by rewrite Hr.
  - destruct r as [l|e]; cbn in *; [|done].
    destruct Hend as [(inst' & Hlast & Hcf')|Hd].
    + left. exists inst'. split; [|done].
      destruct l; [done|]. by rewrite last_cons, Hlast.
    + by right.
Qed.

(** C2, as amended: with a model active, if every decode on defined memory
    yields a size between 1 and [W] and some [W] consecutive addresses are
    undefined, then [disassembly(addr)] comes to an end from every 64-bit
    [addr]: some amount of fuel suffices, and the run ended on a control-flow
    instruction, at an undefined address, or by an exception of the
    decoder. *)
Theorem disassembly_addr_terminates this c (W gap : Z) addr :
  cpu this = Some c ->
  0 <= addr < 2 ^ 64 ->
  (forall a inst, spec_decoded_at c a inst -> 1 <= getSize inst <= W) ->
  (forall k, 0 <= k < W -> spec_defined c (uint64 (gap + k)) = false) ->
  exists fuel r,
    (disassembly_addr this addr fuel).2 = Some r /\ run_ended c addr r.
Proof.
  intros Hc Haddr Hsize Hgap.
  remember (Z.to_nat (uint64 (gap - addr))) as n eqn:Hn.
  revert addr Haddr Hn. induction n as [n IH] using lt_wf_ind.
  intros addr Haddr ->.
  destruct (spec_defined c addr) eqn:Hd; cycle 1.
  { exists 1%nat, (Returns []). rewrite disassembly_addr_S.
    rewrite (fetch_decode_undefined _ c) by done. split; [done|by right]. }
  destruct (cpu_disassembly c addr (spec_window c addr)) as [[size cf]|e]
    eqn:Hdec; cycle 1.
  { exists 1%nat, (Throws e). rewrite disassembly_addr_S.
    rewrite (fetch_decode_active _ c), Hd, Hdec by done.
    split; [done|]. by exists addr. }
  set (inst := {| getAddress := addr; getOpcode := spec_window c addr;
                  getSize := uint32 size; isControlFlow := cf |}).
  assert (spec_decoded_at c addr inst) as Hinst.
  { split; [done|]. by exists size, cf. }
  destruct cf.
  { exists 1%nat, (Returns [inst]). rewrite disassembly_addr_S.
    rewrite (fetch_decode_decoded _ c _ inst) by done.
    split; [done|]. left. by exists inst. }
  pose proof (Hsize _ _ Hinst) as Hs.
  pose proof (uint64_range (gap - addr)) as Hdist.
  assert (exists fuel r,
            (disassembly_addr this (uint64 (addr + getSize inst)) fuel).2
            = Some r
            /\ run_ended c (uint64 (addr + getSize inst)) r)
    as (fuel & r & Hr & Hend).
  { destruct (decide (getSize inst <= uint64 (gap - addr))) as [Hle|Hgt].
    - eapply IH; [|apply uint64_range|reflexivity].
      rewrite uint64_closer by lia. lia.
    - assert (spec_defined c (uint64 (addr + getSize inst)) = false) as Hu.
      { rewrite (uint64_overshoot gap). apply Hgap.
        destruct (decide (uint64 (gap - addr) = 0)) as [Hz|Hnz]; [|lia].
        rewrite (uint64_at_gap gap addr), Hgap in Hd by (done || lia).
        done. }
      exists 1%nat, (Returns []). rewrite disassembly_addr_S.
      rewrite (fetch_decode_undefined _ c) by done.
      split; [done|by right]. }
  exists (S fuel), (prepend [inst] r).
  by apply (disassembly_addr_ended_step this c).
Qed.

End DriverProperties.

(** * The selector and the driver on the two small models *)

Lemma Toy_loaded_cpu baseAddr values :
  cpu (Toy.loaded baseAddr values) = Some (Toy.loaded_cpu baseAddr values).
Proof. reflexivity. Qed.

Lemma Toy_decoded_size (c : Toy.state) a inst :
  spec_decoded_at c a inst -> 1 <= getSize inst <= 16.
Proof.
  intros (_ & size & cf & Hdec & ->). cbn [getSize].
  change (Toy.decode c a (spec_window c a) = Returns (size, cf)) in Hdec.
  revert Hdec. unfold Toy.decode.
  destruct (spec_window c a) as [|b bs]; [done|].
  repeat case_match; intros [= <- <-]; done.
Qed.

Lemma Toy_sample_gap k :
  0 <= k < 16 ->
  spec_defined (Toy.loaded_cpu 4096 Toy.sample_bytes) (uint64 (8192 + k))
  = false.
Proof.
  intros Hk.
  assert (exists n : nat, (n < 16)%nat /\ k = Z.of_nat n) as (n & Hn & ->).
  { exists (Z.to_nat k). lia. }
  do 16 (destruct n as [|n]; [by vm_compute|]). lia.
Qed.

Lemma Saturated_never_returns fuel addr :
  (disassembly_addr Saturated.selector addr fuel).2 = None.
Proof.
  revert addr. induction fuel as [|fuel IH]; intros addr; [done|].
  rewrite disassembly_addr_S. cbn. by rewrite IH.
Qed.

(** C1: on a selector holding the x86 model, [setArchitecture(ARCH_X86_64)]
    with the allocator out of storage throws "Not enough memory." after
    [reset] has already destroyed the x86 model: the selector is left with no
    model while its tag still reads [ARCH_X86] and [isValid] still answers
    true, and the next model-dependent call, [clearArchitecture], throws "You
    must define an architecture." *)
Theorem setArchitecture_allocation_failure_drops_model :
  let before : Architecture Toy.state :=
    (setArchitecture true ARCH_X86 (Architecture_new 0)).2 in
  let after := setArchitecture false ARCH_X86_64 before in
  cpu before = Some (Toy.power_on ARCH_X86 0)
  /\ (clearArchitecture before).1 = Returns tt
  /\ after.1 = Throws (ExcArchitecture
                         "Architecture::setArchitecture(): Not enough memory.")
  /\ cpu after.2 = None
  /\ getArchitecture after.2 = ARCH_X86
  /\ isValid after.2 = true
  /\ (clearArchitecture after.2).1
     = Throws (ExcArchitecture
         "Architecture::clearArchitecture(): You must define an architecture.").
Proof. repeat split. Qed.

(** C2 fails as stated: on the saturated model every decode has size 1, yet
    from address 0 the loop of [disassembly(addr)] is still running after
    any number of turns. *)
Lemma disassembly_addr_need_not_terminate :
  (forall a inst, spec_decoded_at (tt : unit) a inst -> getSize inst = 1)
  /\ cpu Saturated.selector = Some tt
  /\ forall fuel, (disassembly_addr Saturated.selector 0 fuel).2 = None.
Proof.
  split; [|split; [done|]].
  - by intros a inst (_ & size & cf & [= <- <-] & ->).
  - intros fuel. apply Saturated_never_returns.
Qed.

(** The sample image at 0x1000: sizes are at most 16 and the sixteen bytes at
    0x2000 are undefined. *)
Lemma disassembly_addr_terminates_witness :
  exists fuel r,
    (disassembly_addr (Toy.loaded 4096 Toy.sample_bytes) 4096 fuel).2 = Some r
    /\ run_ended (Toy.loaded_cpu 4096 Toy.sample_bytes) 4096 r.
Proof.
  apply (disassembly_addr_terminates
           (Toy.loaded 4096 Toy.sample_bytes)
           (Toy.loaded_cpu 4096 Toy.sample_bytes) 16 8192 4096).
  - reflexivity.
  - split; [by vm_compute|reflexivity].
  - apply Toy_decoded_size.
  - apply Toy_sample_gap.
Defined.

(** The sample image: nop, mov, ret are returned; at 0x2000, undefined, the
    result is empty. *)
Lemma disassembly_addr_until_control_flow_witness :
  let this := Toy.loaded 4096 Toy.sample_bytes in
  let c := Toy.loaded_cpu 4096 Toy.sample_bytes in
  (disassembly_addr this 4096 3).2
  = Some (Returns [Toy.decoded c 4096 1 false; Toy.decoded c 4097 5 false;
                   Toy.decoded c 4102 1 true])
  /\ disassembly_addr this 8192 1
     = ([call_isConcreteMemoryValueDefined 8192 1], Some (Returns [])).
Proof.
  intros this c.
  destruct (disassembly_addr_until_control_flow this c 4096 eq_refl)
    as (_ & _ & Hthree & _).
  destruct (disassembly_addr_until_control_flow this c 8192 eq_refl)
    as (_ & _ & _ & Hundefined).
  assert (spec_decoded_at c 4096 (Toy.decoded c 4096 1 false)) as H1.
  { split; [by vm_compute|]. exists 1, false. split; by vm_compute. }
  assert (spec_decoded_at c 4097 (Toy.decoded c 4097 5 false)) as H2.
  { split; [by vm_compute|]. exists 5, false. split; by vm_compute. }
  assert (spec_decoded_at c 4102 (Toy.decoded c 4102 1 true)) as H3.
  { split; [by vm_compute|]. exists 1, true. split; by vm_compute. }
  split.
  - exact (proj1 (Hthree _ _ _ H1 eq_refl H2 eq_refl H3 eq_refl 3%nat
                    (le_n 3))).
  - exact (Hundefined eq_refl 0%nat).
Defined.

(** C4 fails as stated: with a model active and the start address
    undefined, a count of [usize(-1)] does not give the empty vector but the
    [std::length_error] of [ret.reserve(count)]. *)
Lemma disassembly_count_beyond_max_size :
  let this := Toy.loaded 4096 Toy.sample_bytes in
  let c := Toy.loaded_cpu 4096 Toy.sample_bytes in
  cpu this = Some c
  /\ spec_defined c 8192 = false
  /\ disassembly_count true this 8192 (Z.to_nat (2 ^ 64 - 1))
     = ([], Throws ExcLengthError).
Proof.
  intros this c. split; [reflexivity|]. split; [by vm_compute|].
  apply disassembly_count_not_reserved, reserve_beyond_max_size.
  rewrite Z2Nat.id; by vm_compute.
Qed.

(** The sample image with a count of five: four instructions, then the
    undefined byte at 0x1008. *)
Lemma disassembly_count_bounded_witness :
  let this := Toy.loaded 4096 Toy.sample_bytes in
  let c := Toy.loaded_cpu 4096 Toy.sample_bytes in
  let l := [Toy.decoded c 4096 1 false; Toy.decoded c 4097 5 false;
            Toy.decoded c 4102 1 true; Toy.decoded c 4103 1 false] in
  (disassembly_count true this 4096 5).2 = Returns l
  /\ (length l <= 5)%nat
  /\ spec_defined c (end_address 4096 l) = false
  /\ (disassembly_count true this 8192 5).2 = Returns [].
Proof.
  intros this c l.
  assert (reserve true 5 = Returns tt) as Hres by (by vm_compute).
  destruct (disassembly_count_bounded true this c 4096 5 eq_refl)
    as (_ & _ & Hreserved).
  destruct (Hreserved Hres) as (_ & Hfacts & _).
  destruct (disassembly_count_bounded true this c 8192 5 eq_refl)
    as (_ & _ & Hreserved').
  destruct (Hreserved' Hres) as (_ & _ & _ & Hundefined).
  assert (disassembly_count true this 4096 5
          = (calls_of l ++ [call_isConcreteMemoryValueDefined 4104 1],
             Returns l)) as Hrun by (by vm_compute).
  destruct (Hfacts _ _ Hrun) as (Hlen & _ & _ & _ & Hshort & _).
  split; [by rewrite Hrun|].
  split; [exact Hlen|].
  split; [apply Hshort; cbn; lia|].
  apply Hundefined. by vm_compute.
Defined.

(** An out-of-range tag and the sentinel, on a selector holding the sample
    image. *)
Lemma setArchitecture_unsupported_witness :
  let this := Toy.loaded 4096 Toy.sample_bytes in
  setArchitecture true (ARCH_UNRECOGNIZED 9) this
  = (Throws (ExcArchitecture
       "Architecture::setArchitecture(): Architecture not supported."), this)
  /\ getArchitecture (setArchitecture true ARCH_INVALID this).2 = ARCH_X86_64.
Proof.
  intros this. split.
  - exact (proj1 (setArchitecture_unsupported (ARCH_UNRECOGNIZED 9) true this
                    eq_refl)).
  - exact (proj1 (proj2 (setArchitecture_unsupported ARCH_INVALID true this
                           eq_refl))).
Defined.

(** C6 fails as stated: on a freshly constructed selector, with no model
    active, both setters return normally and leave the selector as it was. *)
Lemma mode_setters_do_not_reject :
  let this : Architecture Toy.state := Architecture_new 0 in
  cpu this = None
  /\ setThumb true this = (Returns tt, this)
  /\ setMemoryExclusiveAccess true this = (Returns tt, this).
Proof. repeat split. Qed.

(** Both setters on an idle selector and on one holding the sample image. *)
Lemma mode_setters_guarded_witness :
  let idle : Architecture Toy.state := Architecture_new 0 in
  let this := Toy.loaded 4096 Toy.sample_bytes in
  setThumb true idle = (Returns tt, idle)
  /\ isThumb (setThumb true this).2 = true
  /\ isMemoryExclusiveAccess (setMemoryExclusiveAccess true this).2 = true.
Proof.
  intros idle this.
  destruct (mode_setters_guarded true idle) as [Hidle _].
  destruct (mode_setters_guarded true this) as [_ Hactive].
  destruct (Hidle eq_refl) as [Hthumb _].
  destruct (Hactive _ eq_refl) as [-> ->].
  split; [exact Hthumb|]. split; reflexivity.
Defined.

(** Selecting AArch64 on a fresh selector. *)
Lemma setArchitecture_then_query_witness :
  let this : Architecture Toy.state := Architecture_new 0 in
  getArchitecture (setArchitecture true ARCH_AARCH64 this).2 = ARCH_AARCH64
  /\ isValid (setArchitecture true ARCH_AARCH64 this).2 = true.
Proof.
  intros this.
  destruct (setArchitecture_then_query ARCH_AARCH64 this eq_refl) as [_ Hq].
  exact (Hq true _ eq_refl).
Defined.

(** Clearing an idle selector, the sample image, and a fresh ARM32 model. *)
Lemma clearArchitecture_keeps_identity_witness :
  let idle : Architecture Toy.state := Architecture_new 0 in
  let this := Toy.loaded 4096 Toy.sample_bytes in
  (clearArchitecture idle).1
  = Throws (ExcArchitecture
      "Architecture::clearArchitecture(): You must define an architecture.")
  /\ getArchitecture (clearArchitecture this).2 = ARCH_X86_64
  /\ cpu (clearArchitecture this).2
     = Some (Toy.power_on ARCH_X86_64 0)
  /\ exists this',
       clearArchitecture (setArchitecture true ARCH_ARM32 idle).2
       = (Returns tt, this')
       /\ getArchitecture this' = ARCH_ARM32 /\ is_Some (cpu this').
Proof.
  intros idle this.
  destruct (clearArchitecture_keeps_identity (Cpu:=Toy.state))
    as (Hidle & Hactive & Hafter).
  rewrite (Hidle idle eq_refl), (Hactive this _ eq_refl).
  split; [reflexivity|]. split; [reflexivity|]. split; [reflexivity|].
  exact (Hafter ARCH_ARM32 true idle _ eq_refl).
Defined.

(** * Properties of the whole surface *)

Section SurfaceProperties.
Context {Cpu : Type} `{!CpuInterface Cpu} `{!CpuSurface Cpu}.
Context `{!HeaderDefaults} `{!VectorLimits}.

Implicit Types (this : Architecture Cpu) (k : request) (ks : list request).

Lemma call_cpu_frame {A : Type} (m : method Cpu A) this c :
  arch (call_cpu m this c).2 = arch this
  /\ callbacks (call_cpu m this c).2 = callbacks this
  /\ is_Some (cpu (call_cpu m this c).2).
Proof. unfold call_cpu. destruct (m c) as [r c']. cbn. eauto. Qed.

Lemma invoke_inactive this k :
  cpu this = None -> is_setArchitecture k = false -> (invoke k this).2 = this.
Proof.
  intros Hc Hk. destruct this as [a p cb]. cbn in Hc. subst p.
  destruct k; try discriminate Hk; reflexivity.
Qed.

Lemma invoke_active this k c :
  cpu this = Some c -> is_setArchitecture k = false ->
  arch (invoke k this).2 = arch this
  /\ callbacks (invoke k this).2 = callbacks this
  /\ is_Some (cpu (invoke k this).2).
Proof.
  intros Hc Hk.
  assert (forall (A : Type) (m : method Cpu A),
            arch (call_cpu m this c).2 = arch this
            /\ callbacks (call_cpu m this c).2 = callbacks this
            /\ is_Some (cpu (call_cpu m this c).2)) as Hcall.
  { intros A m. apply call_cpu_frame. }
  destruct k; try discriminate Hk; cbn;
    unfold total_call, const_call, clearArchitecture, setThumb,
      setMemoryExclusiveAccess, setConcreteMemoryAreaValue,
      setConcreteMemoryValue, setConcreteMemoryValue_mem,
      setConcreteMemoryAreaValue_ptr, setConcreteRegisterValue,
      clearConcreteMemoryValue_mem, clearConcreteMemoryValue,
      bind, get, set_cpu;
    cbn; rewrite ?Hc; cbn; first [apply Hcall | rewrite Hc; eauto | eauto].
Qed.

(** X1: a call other than [setArchitecture] changes neither the tag, nor the
    callbacks pointer, nor whether a model is active; on a selector without a
    model it changes nothing at all. *)
Theorem invoke_frame this k :
  is_setArchitecture k = false ->
  arch (invoke k this).2 = arch this
  /\ callbacks (invoke k this).2 = callbacks this
  /\ (is_Some (cpu (invoke k this).2) <-> is_Some (cpu this))
  /\ (cpu this = None -> (invoke k this).2 = this).
Proof.
  intros Hk. destruct (cpu this) as [c|] eqn:Hc.
  - destruct (invoke_active this k c Hc Hk) as (Ha & Hcb & Hp).
    split; [done|]. split; [done|]. split; [|done].
    split; [eauto|done].
  - rewrite (invoke_inactive this k Hc Hk), Hc. done.
Qed.

Lemma setArchitecture_cases ok a this :
  (supported a = false
   /\ setArchitecture ok a this
      = (Throws (ExcArchitecture
           "Architecture::setArchitecture(): Architecture not supported."),
         this))
  \/ (supported a = true /\ ok = false
      /\ setArchitecture ok a this
         = (Throws (ExcArchitecture
              "Architecture::setArchitecture(): Not enough memory."),
            {| arch := arch this; cpu := None;
               callbacks := callbacks this |}))
  \/ (supported a = true /\ ok = true
      /\ exists c,
           setArchitecture ok a this
           = (Returns tt,
              {| arch := a; cpu := Some c; callbacks := callbacks this |})).
Proof.
  destruct (supported a) eqn:Hs.
  - right. destruct ok.
    + right. split; [done|]. split; [done|].
      by apply setArchitecture_success.
    + left. split; [done|]. split; [done|].
      by apply setArchitecture_no_storage.
  - left. split; [done|]. destruct a; try discriminate Hs; reflexivity.
Qed.

Lemma well_formed_invoke cb this k :
  well_formed cb this -> well_formed cb (invoke k this).2.
Proof.
  intros (Hcb & Htag & Hmodel).
  destruct (is_setArchitecture k) eqn:Hk.
  - destruct k; try discriminate Hk. cbn [invoke].
    destruct (setArchitecture_cases storage_available a this)
      as [(Hs & ->)|[(Hs & _ & ->)|(Hs & _ & c & ->)]]; cbn.
    + done.
    + split; [done|]. split; [done|]. by intros [? [=]].
    + split; [done|]. split; [by right|done].
  - destruct (cpu this) as [c|] eqn:Hc.
    + destruct (invoke_active this k c Hc Hk) as (Ha & Hcb' & Hp).
      unfold well_formed. rewrite Ha, Hcb'.
      split; [done|]. split; [done|]. intros _. apply Hmodel. eauto.
    + rewrite (invoke_inactive this k Hc Hk). unfold well_formed.
      rewrite Hc. done.
Qed.

Lemma run_callbacks ks this : callbacks (run ks this) = callbacks this.
Proof.
  revert this. induction ks as [|k ks IH]; intros this; [done|].
  cbn. rewrite IH.
  destruct (is_setArchitecture k) eqn:Hk.
  - destruct k; try discriminate Hk. cbn [invoke].
    by destruct (setArchitecture_cases storage_available a this)
      as [(_ & ->)|[(_ & _ & ->)|(_ & _ & c & ->)]].
  - destruct (cpu this) as [c|] eqn:Hc.
    + by destruct (invoke_active this k c Hc Hk) as (_ & ? & _).
    + by rewrite (invoke_inactive this k Hc Hk).
Qed.

(** X2: whatever calls were made on a selector since its construction over
    [cb], allocation failures included, it still holds [cb], its tag is the
    sentinel or a supported one, and a model is active only under a supported
    tag; so a selector that is not valid has no model. *)
Theorem run_well_formed (cb : Callbacks_ptr) ks :
  well_formed cb (run ks (Architecture_new cb))
  /\ (isValid (run ks (Architecture_new cb)) = false ->
      cpu (run ks (Architecture_new cb)) = None).
Proof.
  assert (forall this, well_formed cb this -> well_formed cb (run ks this))
    as Hrun.
  { induction ks as [|k ks IH]; intros this Hwf; [done|].
    cbn. apply IH. by apply well_formed_invoke. }
  assert (well_formed cb (run ks (Architecture_new cb))) as Hwf.
  { apply Hrun. split; [done|]. split; [by left|]. by intros [? [=]]. }
  split; [done|].
  intros Hv%isValid_iff. destruct Hwf as (_ & _ & Hmodel).
  destruct (cpu _) as [c|] eqn:Hc; [|done].
  rewrite Hv in Hmodel. by discriminate Hmodel.
Qed.

Lemma coupled_invoke this k :
  storage_held [k] = true -> coupled this -> coupled (invoke k this).2.
Proof.
  intros Hheld Hcoupled.
  destruct (is_setArchitecture k) eqn:Hk.
  - destruct k; try discriminate Hk. cbn in Hheld. cbn [invoke].
    destruct (setArchitecture_cases storage_available a this)
      as [(Hs & ->)|[(Hs & Hok & _)|(Hs & _ & c & ->)]]; cbn.
    + done.
    + rewrite Hok in Hheld. done.
    + unfold coupled. cbn. split; [done|].
      intros ->. discriminate Hs.
  - destruct (cpu this) as [c|] eqn:Hc.
    + destruct (invoke_active this k c Hc Hk) as (Ha & _ & [c' Hc']).
      unfold coupled in *. rewrite Ha, Hc'. destruct Hcoupled as [_ Hi].
      split; [done|]. intros Ht. specialize (Hi Ht). congruence.
    + by rewrite (invoke_inactive this k Hc Hk).
Qed.

(** X3: tag and model stay coupled as long as the allocator delivers.  A call
    other than a [setArchitecture] that runs out of storage keeps "no model
    exactly under the sentinel tag"; a [setArchitecture] that returns
    establishes it from any state; so after any calls without an allocation
    failure [isValid] answers true exactly when a model is active. *)
Theorem coupled_while_storage_holds :
  (forall this k,
     storage_held [k] = true -> coupled this -> coupled (invoke k this).2)
  /\ (forall ok a this,
        (setArchitecture ok a this).1 = Returns tt ->
        coupled (setArchitecture ok a this).2)
  /\ (forall cb ks,
        storage_held ks = true ->
        coupled (run ks (Architecture_new cb))
        /\ (isValid (run ks (Architecture_new cb)) = true
            <-> is_Some (cpu (run ks (Architecture_new cb))))).
Proof.
  split; [apply coupled_invoke|]. split.
  - intros ok a this.
    destruct (setArchitecture_cases ok a this)
      as [(Hs & ->)|[(Hs & _ & ->)|(Hs & _ & c & ->)]]; cbn; try done.
    intros _. split; [done|]. cbn. intros ->. discriminate Hs.
  - intros cb ks Hheld.
    assert (forall this, coupled this -> coupled (run ks this)) as Hrun.
    { induction ks as [|k ks IH]; intros this Hc; [done|].
      cbn in Hheld |- *. apply andb_prop in Hheld as [Hk Hks].
      apply (IH Hks). apply coupled_invoke; [|done].
      cbn. by rewrite Hk. }
    assert (coupled (run ks (Architecture_new cb))) as Hc.
    { apply Hrun. done. }
    split; [done|]. destruct Hc as [Hc1 Hc2].
    unfold isValid. case_decide as Ha.
    + rewrite (Hc2 Ha). split; [done|]. by intros [? [=]].
    + split; [|done]. intros _.
      destruct (cpu _) as [c|]; [eauto|]. by destruct Ha; apply Hc1.
Qed.

Lemma coupled_run ks this :
  storage_held ks = true -> coupled this -> coupled (run ks this).
Proof.
  revert this. induction ks as [|k ks IH]; intros this Hheld Hc; [done|].
  cbn in Hheld |- *. apply andb_prop in Hheld as [Hk Hks].
  apply (IH _ Hks). apply coupled_invoke; [|done]. cbn. by rewrite Hk.
Qed.

(** C8: before any [setArchitecture] call [isValid] is false, and so it is
    on every selector without a model that was reached from construction
    while the allocator delivered; and whenever no model is active, however
    that came about, each of [isFlag], [isRegister], [isRegisterValid],
    [isThumb] and [isMemoryExclusiveAccess] answers [false] and each of
    [numberOfRegisters], [gprSize] and [gprBitSize] answers zero, none
    throwing.  The one state without a model in which [isValid] answers true
    is the one the allocation failure of C1 leaves: a selection that
    succeeded, then a replacement that ran out of storage. *)
Theorem isValid_and_queries_without_model :
  (forall cb, cpu (Architecture_new (Cpu:=Cpu) cb) = None
              /\ isValid (Architecture_new (Cpu:=Cpu) cb) = false)
  /\ (forall cb ks,
        storage_held ks = true ->
        cpu (run ks (Architecture_new cb)) = None ->
        isValid (run ks (Architecture_new cb)) = false)
  /\ (forall this, cpu this = None ->
        (forall regId, isFlag this regId = false
                       /\ isRegister this regId = false
                       /\ isRegisterValid this regId = false)
        /\ isThumb this = false
        /\ isMemoryExclusiveAccess this = false
        /\ numberOfRegisters this = 0
        /\ gprSize this = 0
        /\ gprBitSize this = 0)
  /\ (forall cb,
        cpu (run [req_setArchitecture true ARCH_X86;
                  req_setArchitecture false ARCH_X86_64]
               (Architecture_new cb)) = None
        /\ isValid (run [req_setArchitecture true ARCH_X86;
                         req_setArchitecture false ARCH_X86_64]
                      (Architecture_new cb)) = true).
Proof.
  destruct (queries_without_model (Cpu:=Cpu)) as (Hnew & _ & Hidle).
  split; [intros cb; split; by apply Hnew|].
  split; [|split; [exact Hidle|by intros cb]].
  intros cb ks Hheld Hnone.
  assert (coupled (run ks (Architecture_new cb))) as [Htag _].
  { by apply coupled_run. }
  apply isValid_iff. by apply Htag.
Qed.

(** X4: on a selector without a model every call but [setArchitecture] leaves
    the object as it is, and the surface splits in three.  The bounded driver
    whose [reserve] throws leaves by that exception, before any null check.
    Otherwise the calls that go through a throwing null check leave by an
    exception that reports the missing model, and all others return.  Both
    driver forms belong to the second kind as soon as they enter their
    loop. *)
Theorem inactive_selector_is_inert this k :
  cpu this = None ->
  is_setArchitecture k = false ->
  (invoke k this).2 = this
  /\ match thrown_before_null_check k with
     | Some e => (invoke k this).1 = Throws e
     | None =>
         if needs_model k
         then exists e, (invoke k this).1 = Throws e
                        /\ reports_missing_model e = true
         else (invoke k this).1 = Returns tt
     end
  /\ (forall addr fuel,
        exists e, (disassembly_addr this addr (S fuel)).2 = Some (Throws e)
                  /\ reports_missing_model e = true).
Proof.
  intros Hc Hk. split; [by apply invoke_inactive|]. split.
  - destruct k; try discriminate Hk;
      lazymatch goal with
      | |- context [req_disassembly_count ?ok ?addr ?count] =>
          cbn [thrown_before_null_check needs_model invoke];
          unfold const_call; cbn [fst];
          destruct (disassembly_count_cases ok this addr count)
            as [[-> ->]|(e & -> & ->)]; [|done];
          destruct count as [|count]; [done|];
          rewrite disassembly_count_without_model by done; cbn;
          eexists; split; reflexivity
      | _ =>
          destruct this as [a p cb]; cbn in Hc; subst p; cbn; try done;
          try (eexists; split; reflexivity)
      end.
  - intros addr fuel. rewrite disassembly_addr_S.
    unfold fetch_decode, isConcreteMemoryValueDefined. rewrite Hc.
    eexists. split; reflexivity.
Qed.

(** X5: a [setArchitecture] that finds storage for a supported tag erases the
    past: whatever calls were made before it, the outcome and the state it
    leaves are those it leaves on the selector as it was before them.  In
    particular selecting the same architecture twice is selecting it once. *)
Theorem setArchitecture_erases_history (a : architecture_e) ks this :
  supported a = true ->
  setArchitecture true a (run ks this) = setArchitecture true a this.
Proof.
  intros Hs.
  assert (forall this1 this2 : Architecture Cpu,
            callbacks this1 = callbacks this2 ->
            setArchitecture true a this1 = setArchitecture true a this2)
    as Heq.
  { intros [a1 p1 cb1] [a2 p2 cb2]. cbn. intros ->.
    destruct a; try discriminate Hs; reflexivity. }
  apply Heq, run_callbacks.
Qed.

(** X6: the three outcomes of [setArchitecture] and when each occurs: it
    returns exactly for a supported tag with storage at hand; it reports an
    unsupported tag exactly for a tag outside the switch, whether or not
    storage is there; it reports lack of memory exactly for a supported tag
    without storage. *)
Theorem setArchitecture_outcomes ok (a : architecture_e) this :
  ((setArchitecture ok a this).1 = Returns tt
   <-> supported a = true /\ ok = true)
  /\ ((setArchitecture ok a this).1
      = Throws (ExcArchitecture
          "Architecture::setArchitecture(): Architecture not supported.")
      <-> supported a = false)
  /\ ((setArchitecture ok a this).1
      = Throws (ExcArchitecture
          "Architecture::setArchitecture(): Not enough memory.")
      <-> supported a = true /\ ok = false).
Proof.
  destruct (setArchitecture_cases ok a this)
    as [(Hs & ->)|[(Hs & Hok & ->)|(Hs & Hok & c & ->)]]; cbn;
    rewrite Hs, ?Hok; repeat split; try done; by intros [? ?].
Qed.

End SurfaceProperties.

(** * Further properties of the disassembly driver *)

Section DriverComposition.
Context {Cpu : Type} `{!CpuInterface Cpu} `{!HeaderDefaults}.
Context `{!VectorLimits}.

Implicit Types (this : Architecture Cpu) (c : Cpu) (addr : Z).
Implicit Types (inst : Instruction) (l rest : list Instruction).
Implicit Types (log asked : list cpu_call).

Lemma prepend_empty r : prepend [] r = r.
Proof. by destruct r. Qed.

(** The loop of [n + m] turns is the loop of [n] turns and then, if that one
    collected [n] instructions, the loop of [m] turns from where it stood. *)
Lemma disassembly_count_body_split this addr (n m : nat) :
  disassembly_count_body this addr (n + m)
  = match disassembly_count_body this addr n with
    | (log, Returns l) =>
        if decide (length l = n)
        then let r := disassembly_count_body this (end_address addr l) m in
             (log ++ r.1, prepend l r.2)
        else (log, Returns l)
    | (log, Throws e) => (log, Throws e)
    end.
Proof.
  revert addr. induction n as [|n IH]; intros addr.
  - cbn [Nat.add].
    change (disassembly_count_body this addr 0)
      with (@nil cpu_call, Returns (@nil Instruction)).
    cbn. rewrite prepend_empty.
    by destruct (disassembly_count_body this addr m).
  - cbn [Nat.add]. rewrite !disassembly_count_S.
    destruct (fetch_decode this addr) as [asked [[inst|]|e]]; [|done..].
    cbn zeta. rewrite IH.
    destruct (disassembly_count_body this _ n) as [log' [l'|e]]; [|done].
    cbn [fst snd prepend app length].
    destruct (decide (length l' = n)) as [Hl|Hl].
    + rewrite decide_True by lia. cbn zeta. rewrite end_address_cons.
      cbn [fst snd]. rewrite app_assoc.
      by rewrite (prepend_app [inst] l').
    + rewrite decide_False by lia. done.
Qed.

Lemma reserve_sum ok (n m : nat) :
  reserve ok (n + m) = Returns tt ->
  reserve ok n = Returns tt /\ reserve ok m = Returns tt.
Proof.
  rewrite !reserve_Returns. intros [Hle Hok].
  split; (split; [lia|]); destruct Hok as [Hz|Hok]; eauto; left; lia.
Qed.

(** X7: when the vector can reserve [n + m] elements, a bounded run of
    [n + m] instructions is the run of [n] followed, when that one came back
    with all [n] of them, by the run of [m] from the address it stopped at; a
    run of [n] that stopped early or threw is also the outcome for [n + m].
    Calls and instructions both concatenate.  When [reserve] throws for
    [n + m] the call ends there, whatever the runs of [n] and of [m] would
    give. *)
Theorem disassembly_count_split ok this addr (n m : nat) :
  disassembly_count ok this addr (n + m)
  = match reserve ok (n + m) with
    | Throws e => ([], Throws e)
    | Returns _ =>
        match disassembly_count ok this addr n with
        | (log, Returns l) =>
            if decide (length l = n)
            then let r := disassembly_count ok this (end_address addr l) m in
                 (log ++ r.1, prepend l r.2)
            else (log, Returns l)
        | (log, Throws e) => (log, Throws e)
        end
    end.
Proof.
  destruct (disassembly_count_cases ok this addr (n + m))
    as [[Hres ->]|(e & -> & ->)]; [|done].
  rewrite Hres. destruct (reserve_sum ok n m Hres) as [Hn Hm].
  rewrite (disassembly_count_reserved ok this addr n Hn).
  rewrite disassembly_count_body_split.
  destruct (disassembly_count_body this addr n) as [log [l|e]]; [|done].
  case_decide; [|done].
  by rewrite (disassembly_count_reserved ok this _ m Hm).
Qed.

Lemma back_isControlFlow_cons inst rest :
  back_isControlFlow (inst :: rest) = false ->
  isControlFlow inst = false -> back_isControlFlow rest = false.
Proof.
  destruct rest as [|inst' rest]; [done|].
  unfold back_isControlFlow. by rewrite last_cons_cons.
Qed.

Lemma back_isControlFlow_cons_ne inst inst' rest :
  back_isControlFlow (inst :: inst' :: rest)
  = back_isControlFlow (inst' :: rest).
Proof.
  unfold back_isControlFlow. by rewrite last_cons_cons.
Qed.

(** The loop of the bounded form follows a returned unbounded run. *)
Lemma disassembly_addr_agrees_with_body this addr fuel l :
  (disassembly_addr this addr fuel).2 = Some (Returns l) ->
  (forall n, (n <= length l)%nat ->
             (disassembly_count_body this addr n).2 = Returns (take n l))
  /\ (back_isControlFlow l = false ->
      forall n, (length l <= n)%nat ->
                (disassembly_count_body this addr n).2 = Returns l).
Proof.
  revert addr l. induction fuel as [|fuel IH]; intros addr l; [done|].
  rewrite disassembly_addr_S.
  destruct (fetch_decode this addr) as [asked [[inst|]|e]] eqn:Hf;
    cbn [snd]; [| |done].
  - destruct (isControlFlow inst) eqn:Hcf.
    + intros [= <-]. split.
      * intros [|[|n]] Hn; cbn in Hn; [done| |lia].
        rewrite disassembly_count_S, Hf. done.
      * unfold back_isControlFlow. cbn. by rewrite Hcf.
    + cbn zeta. cbn [snd].
      destruct (disassembly_addr this _ fuel).2 as [[rest|e]|] eqn:Hr;
        cbn; [|done..].
      intros [= <-]. destruct (IH _ _ Hr) as [IH1 IH2]. split.
      * intros [|n] Hn; [done|]. cbn in Hn.
        rewrite disassembly_count_S, Hf. cbn zeta. cbn [snd].
        rewrite IH1 by lia. done.
      * intros Hback [|n] Hn; cbn in Hn; [lia|].
        rewrite disassembly_count_S, Hf. cbn zeta. cbn [snd].
        rewrite IH2; [done| |lia].
        by eapply back_isControlFlow_cons.
  - intros [= <-]. split.
    + intros [|n] Hn; [done|]. cbn in Hn. lia.
    + intros _ [|n] _; [done|].
      rewrite disassembly_count_S, Hf. done.
Qed.

(** X8: the two forms agree as far as the unbounded one goes.  If
    [disassembly(addr)] returns [l], then [disassembly(addr, n)] returns the
    first [n] instructions of [l] for every [n] up to the length of [l] that
    the vector can reserve; and if [l] did not end on a control-flow
    instruction (the run stopped at undefined memory), every larger count the
    vector can reserve returns [l] itself. *)
Theorem disassembly_addr_agrees_with_count this addr fuel l :
  (disassembly_addr this addr fuel).2 = Some (Returns l) ->
  (forall ok n, (n <= length l)%nat -> reserve ok n = Returns tt ->
                (disassembly_count ok this addr n).2 = Returns (take n l))
  /\ (back_isControlFlow l = false ->
      forall ok n, (length l <= n)%nat -> reserve ok n = Returns tt ->
                   (disassembly_count ok this addr n).2 = Returns l).
Proof.
  intros Hrun.
  destruct (disassembly_addr_agrees_with_body this addr fuel l Hrun)
    as [Hprefix Hwhole].
  split.
  - intros ok n Hn Hres. rewrite disassembly_count_reserved by done.
    by apply Hprefix.
  - intros Hback ok n Hn Hres. rewrite disassembly_count_reserved by done.
    by apply Hwhole.
Qed.

(** X9: what a returned unbounded run has asked of the model: the three
    calls of each instruction it returns, in order, and after them the one
    failed definedness test if it stopped at undefined memory, nothing at all
    if it stopped on a control-flow instruction.  Nothing behind a
    control-flow instruction is tested, read or decoded. *)
Theorem disassembly_addr_log this c addr fuel log l :
  cpu this = Some c ->
  disassembly_addr this addr fuel = (log, Some (Returns l)) ->
  log = calls_of l
        ++ (if back_isControlFlow l then []
            else [call_isConcreteMemoryValueDefined (end_address addr l)
                    default_size]).
Proof.
  intros Hc. revert addr log l.
  induction fuel as [|fuel IH]; intros addr log l; [done|].
  rewrite disassembly_addr_S.
  destruct (fetch_decode this addr) as [asked [[inst|]|e]] eqn:Hf;
    [| |done].
  - destruct (fetch_decode_Some_inv _ _ _ _ _ Hc Hf) as [Hdec ->].
    pose proof (spec_decoded_at_address _ _ _ Hdec) as Haddr.
    destruct (isControlFlow inst) eqn:Hcf.
    + intros [= <- <-]. unfold back_isControlFlow. cbn. rewrite Hcf, Haddr.
      done.
    + cbn zeta.
      destruct (disassembly_addr this _ fuel) as [log' [[rest|e]|]] eqn:Hr;
        cbn; [|done..].
      intros [= <- <-]. rewrite (IH _ _ _ Hr).
      rewrite end_address_cons. cbn [calls_of flat_map].
      rewrite Haddr, <- app_assoc. do 2 f_equal.
      destruct rest as [|inst' rest].
      * unfold back_isControlFlow. cbn. by rewrite Hcf.
      * by rewrite back_isControlFlow_cons_ne.
  - destruct (fetch_decode_None_inv _ _ _ _ Hc Hf) as [_ ->].
    by intros [= <- <-].
Qed.

Lemma guarded_log_app c log log' :
  guarded_log c log -> guarded_log c log' -> guarded_log c (log ++ log').
Proof.
  intros H1 H2 k [Hk|Hk]%elem_of_app; [by apply H1|by apply H2].
Qed.

Lemma guarded_log_fetch_decode this c addr :
  cpu this = Some c -> guarded_log c (fetch_decode this addr).1.
Proof.
  intros Hc. rewrite (fetch_decode_active _ c) by done.
  destruct (spec_defined c addr) eqn:Hd.
  - assert (guarded_log c (step_calls addr)) as Hg.
    { intros k Hk. unfold step_calls in Hk.
      repeat (apply elem_of_cons in Hk as [->|Hk]); try done.
      by apply elem_of_nil in Hk. }
    by destruct (cpu_disassembly _ _ _) as [[size cf]|e].
  - intros k Hk. cbn in Hk. apply list_elem_of_singleton in Hk as ->. done.
Qed.

(** X10: whatever the outcome -- a returned run, an exception of the
    decoder, or an unbounded loop still turning -- every read either form
    makes is the 16-byte read with the default callback flag at an address
    the model reports as defined, every decode is at such an address, and
    every definedness test is over the default size. *)
Theorem driver_calls_are_guarded this c addr :
  cpu this = Some c ->
  (forall ok count, guarded_log c (disassembly_count ok this addr count).1)
  /\ (forall fuel, guarded_log c (disassembly_addr this addr fuel).1).
Proof.
  intros Hc. split.
  - intros ok count.
    destruct (disassembly_count_cases ok this addr count)
      as [[_ ->]|(e & _ & ->)]; [|by intros k Hk%elem_of_nil].
    revert addr.
    induction count as [|count IH]; intros addr.
    + by intros k Hk%elem_of_nil.
    + rewrite disassembly_count_S.
      pose proof (guarded_log_fetch_decode this c addr Hc) as Hg.
      destruct (fetch_decode this addr) as [asked [[inst|]|e]]; try done.
      cbn. by apply guarded_log_app.
  - intros fuel. revert addr.
    induction fuel as [|fuel IH]; intros addr.
    + by intros k Hk%elem_of_nil.
    + rewrite disassembly_addr_S.
      pose proof (guarded_log_fetch_decode this c addr Hc) as Hg.
      destruct (fetch_decode this addr) as [asked [[inst|]|e]]; try done.
      destruct (isControlFlow inst); [done|].
      cbn. by apply guarded_log_app.
Qed.

(** X11: nothing in either loop looks at the decoded size before adding it
    to the address.  If the instruction at a 64-bit [addr] decodes with size
    zero and is not control-flow, the unbounded form never leaves its loop,
    and the bounded form returns [count] copies of that one instruction for
    every [count] the vector can reserve. *)
Theorem zero_size_decode_stalls this c addr inst :
  cpu this = Some c ->
  0 <= addr < 2 ^ 64 ->
  spec_decoded_at c addr inst ->
  getSize inst = 0 ->
  isControlFlow inst = false ->
  (forall fuel, (disassembly_addr this addr fuel).2 = None)
  /\ (forall ok count,
        reserve ok count = Returns tt ->
        (disassembly_count ok this addr count).2
        = Returns (replicate count inst)).
Proof.
  intros Hc Haddr Hdec Hsize Hcf.
  assert (uint64 (addr + getSize inst) = addr) as Hstay.
  { rewrite Hsize, Z.add_0_r. by apply Z.mod_small. }
  split.
  - induction fuel as [|fuel IH]; [done|].
    rewrite disassembly_addr_S.
    rewrite (fetch_decode_decoded _ c _ inst), Hcf by done.
    cbn zeta. rewrite Hstay. cbn [snd]. by rewrite IH.
  - intros ok count Hres. rewrite disassembly_count_reserved by done.
    clear Hres. induction count as [|count IH]; [done|].
    rewrite disassembly_count_S.
    rewrite (fetch_decode_decoded _ c _ inst) by done.
    cbn zeta. rewrite Hstay. cbn [snd]. by rewrite IH.
Qed.

End DriverComposition.

(** * The further properties on the small models *)

(** Clearing eight bytes of the sample image, and a register lookup on an
    idle selector. *)
Lemma invoke_frame_witness :
  let this := Toy.loaded 4096 Toy.sample_bytes in
  let idle : Architecture Toy.state := Architecture_new 5 in
  arch (invoke (req_clearConcreteMemoryValue 4096 8) this).2 = ARCH_X86_64
  /\ callbacks (invoke (req_clearConcreteMemoryValue 4096 8) this).2 = 0
  /\ is_Some (cpu (invoke (req_clearConcreteMemoryValue 4096 8) this).2)
  /\ (invoke (req_getRegister 3) idle).2 = idle.
Proof.
  intros this idle.
  destruct (invoke_frame this (req_clearConcreteMemoryValue 4096 8) eq_refl)
    as (Ha & Hcb & Hp & _).
  destruct (invoke_frame idle (req_getRegister 3) eq_refl)
    as (_ & _ & _ & Hidle).
  split; [by rewrite Ha|]. split; [by rewrite Hcb|].
  split; [apply Hp; by eexists|]. by apply Hidle.
Defined.

(** A selection, a replacement that runs out of storage, a mode change; and
    a refused tag on a fresh selector. *)
Lemma run_well_formed_witness :
  well_formed (Cpu:=Toy.state) 7
    (run [req_setArchitecture true ARCH_X86;
          req_setArchitecture false ARCH_ARM32; req_setThumb true]
       (Architecture_new 7))
  /\ cpu (run [req_setArchitecture true (ARCH_UNRECOGNIZED 9)]
            (Architecture_new (Cpu:=Toy.state) 7)) = None.
Proof.
  split.
  - exact (proj1 (run_well_formed (Cpu:=Toy.state) 7
                    [req_setArchitecture true ARCH_X86;
                     req_setArchitecture false ARCH_ARM32;
                     req_setThumb true])).
  - exact (proj2 (run_well_formed (Cpu:=Toy.state) 7
                    [req_setArchitecture true (ARCH_UNRECOGNIZED 9)])
             eq_refl).
Defined.

(** A selection, a write, a clear: storage held throughout. *)
Lemma coupled_while_storage_holds_witness :
  let this : Architecture Toy.state :=
    run [req_setArchitecture true ARCH_X86; req_setConcreteMemoryValue 0 1;
         req_clearArchitecture] (Architecture_new 0) in
  coupled this /\ (isValid this = true <-> is_Some (cpu this)).
Proof.
  intros this.
  destruct (coupled_while_storage_holds (Cpu:=Toy.state)) as (_ & _ & Hrun).
  exact (Hrun 0 [req_setArchitecture true ARCH_X86;
                 req_setConcreteMemoryValue 0 1; req_clearArchitecture]
           eq_refl).
Defined.

(** A mode change and a refused tag on a fresh selector, storage held; and
    the queries on a fresh selector. *)
Lemma isValid_and_queries_without_model_witness :
  let idle : Architecture Toy.state := Architecture_new 0 in
  isValid (run [req_setThumb true; req_setArchitecture true ARCH_INVALID]
             idle) = false
  /\ isFlag idle 3 = false /\ isRegister idle 3 = false
  /\ isRegisterValid idle 3 = false
  /\ isThumb idle = false /\ isMemoryExclusiveAccess idle = false
  /\ numberOfRegisters idle = 0 /\ gprSize idle = 0 /\ gprBitSize idle = 0.
Proof.
  intros idle.
  destruct (isValid_and_queries_without_model (Cpu:=Toy.state))
    as (_ & Hheld & Hidle & _).
  destruct (Hidle idle eq_refl) as (Hreg & ? & ? & ? & ? & ?).
  destruct (Hreg 3) as (? & ? & ?).
  split.
  - exact (Hheld 0 [req_setThumb true; req_setArchitecture true ARCH_INVALID]
             eq_refl eq_refl).
  - repeat split; assumption.
Defined.

(** A byte read, a capability query and a bounded run whose [reserve] finds
    no storage, on a fresh selector. *)
Lemma inactive_selector_is_inert_witness :
  let idle : Architecture Toy.state := Architecture_new 0 in
  (invoke (req_getConcreteMemoryValue 4096 true) idle).2 = idle
  /\ (exists e, (invoke (req_getConcreteMemoryValue 4096 true) idle).1
                = Throws e /\ reports_missing_model e = true)
  /\ (invoke (req_isFlag 3) idle).1 = Returns tt
  /\ (invoke (req_disassembly_count false 4096 3) idle).1
     = Throws ExcBadAlloc.
Proof.
  intros idle.
  destruct (inactive_selector_is_inert idle
              (req_getConcreteMemoryValue 4096 true) eq_refl eq_refl)
    as (Hsame & Hthrows & _).
  destruct (inactive_selector_is_inert idle (req_isFlag 3) eq_refl eq_refl)
    as (_ & Hreturns & _).
  destruct (inactive_selector_is_inert idle
              (req_disassembly_count false 4096 3) eq_refl eq_refl)
    as (_ & Hreserve & _).
  split; [exact Hsame|]. split; [exact Hthrows|]. split; [exact Hreturns|].
  exact Hreserve.
Defined.

(** Selecting AArch64 after an x86 session with memory written. *)
Lemma setArchitecture_erases_history_witness :
  let idle : Architecture Toy.state := Architecture_new 0 in
  setArchitecture true ARCH_AARCH64
    (run [req_setArchitecture true ARCH_X86;
          req_setConcreteMemoryAreaValue 4096 [144]] idle)
  = setArchitecture true ARCH_AARCH64 idle.
Proof.
  intros idle.
  exact (setArchitecture_erases_history ARCH_AARCH64
           [req_setArchitecture true ARCH_X86;
            req_setConcreteMemoryAreaValue 4096 [144]] idle eq_refl).
Defined.

(** ARM32 with storage, and the sentinel tag without. *)
Lemma setArchitecture_outcomes_witness :
  let idle : Architecture Toy.state := Architecture_new 0 in
  (setArchitecture true ARCH_ARM32 idle).1 = Returns tt
  /\ (setArchitecture false ARCH_INVALID idle).1
     = Throws (ExcArchitecture
         "Architecture::setArchitecture(): Architecture not supported.").
Proof.
  intros idle.
  destruct (setArchitecture_outcomes true ARCH_ARM32 idle) as ([_ Hret] & _).
  destruct (setArchitecture_outcomes false ARCH_INVALID idle)
    as (_ & [_ Hunsupported] & _).
  split; [apply Hret; by split|by apply Hunsupported].
Defined.

(** The sample image from its start (ending on the ret) and from its last
    byte (ending at undefined memory). *)
Lemma disassembly_addr_agrees_with_count_witness :
  let this := Toy.loaded 4096 Toy.sample_bytes in
  let c := Toy.loaded_cpu 4096 Toy.sample_bytes in
  (disassembly_count true this 4096 2).2
  = Returns [Toy.decoded c 4096 1 false; Toy.decoded c 4097 5 false]
  /\ (disassembly_count true this 4103 5).2
     = Returns [Toy.decoded c 4103 1 false].
Proof.
  intros this c.
  assert ((disassembly_addr this 4096 3).2
          = Some (Returns [Toy.decoded c 4096 1 false;
                           Toy.decoded c 4097 5 false;
                           Toy.decoded c 4102 1 true])) as Hrun
    by (by vm_compute).
  assert ((disassembly_addr this 4103 2).2
          = Some (Returns [Toy.decoded c 4103 1 false])) as Htail
    by (by vm_compute).
  assert (reserve true 2 = Returns tt) as Htwo by (by vm_compute).
  assert (reserve true 5 = Returns tt) as Hfive by (by vm_compute).
  destruct (disassembly_addr_agrees_with_count _ _ _ _ Hrun) as [Hprefix _].
  destruct (disassembly_addr_agrees_with_count _ _ _ _ Htail) as [_ Hwhole].
  split.
  - exact (Hprefix true 2%nat (le_S _ _ (le_n 2)) Htwo).
  - apply Hwhole; [reflexivity| |exact Hfive]. cbn. lia.
Defined.

(** The sample image from its start: nine calls, none behind the ret. *)
Lemma disassembly_addr_log_witness :
  let this := Toy.loaded 4096 Toy.sample_bytes in
  let c := Toy.loaded_cpu 4096 Toy.sample_bytes in
  (disassembly_addr this 4096 3).1
  = step_calls 4096 ++ step_calls 4097 ++ step_calls 4102.
Proof.
  intros this c.
  assert (disassembly_addr this 4096 3
          = ((disassembly_addr this 4096 3).1,
             Some (Returns [Toy.decoded c 4096 1 false;
                            Toy.decoded c 4097 5 false;
                            Toy.decoded c 4102 1 true]))) as Hrun
    by (by vm_compute).
  rewrite (disassembly_addr_log this c 4096 3 _ _ eq_refl Hrun).
  reflexivity.
Defined.

(** The second read of a bounded run over the sample image. *)
Lemma driver_calls_are_guarded_witness :
  let this := Toy.loaded 4096 Toy.sample_bytes in
  let c := Toy.loaded_cpu 4096 Toy.sample_bytes in
  call_getConcreteMemoryAreaValue 4097 16 true
    ∈ (disassembly_count true this 4096 5).1
  /\ spec_defined c 4097 = true.
Proof.
  intros this c.
  assert (call_getConcreteMemoryAreaValue 4097 16 true
            ∈ (disassembly_count true this 4096 5).1) as Hin.
  { vm_compute. do 4 apply list_elem_of_further. apply list_elem_of_here. }
  split; [exact Hin|].
  destruct (driver_calls_are_guarded this c 4096 eq_refl) as [Hcount _].
  exact (proj2 (proj2 (Hcount true 5%nat _ Hin))).
Defined.

(** Sixteen zero bytes at address 0 of the stalling model. *)
Lemma zero_size_decode_stalls_witness :
  let inst := {| getAddress := 0; getOpcode := replicate 16 0;
                 getSize := 0; isControlFlow := false |} in
  (disassembly_addr Stalling.selector 0 5).2 = None
  /\ (disassembly_count true Stalling.selector 0 3).2
     = Returns [inst; inst; inst].
Proof.
  intros inst.
  assert (spec_decoded_at (Stalling.mkState 16) 0 inst) as Hdec.
  { split; [by vm_compute|]. exists 0, false. split; by vm_compute. }
  destruct (zero_size_decode_stalls Stalling.selector (Stalling.mkState 16)
              0 inst eq_refl (conj (Z.le_refl 0) eq_refl) Hdec eq_refl
              eq_refl) as [Hloop Hcopies].
  split; [exact (Hloop 5%nat)|].
  apply (Hcopies true 3%nat). by vm_compute.
Defined.
